(** * repo_content.py: ignore patterns, binary detection and the tree walker

    A shallow embedding of [src/repo_content.py] and of the parts of the
    Python standard library it calls ([fnmatch], [posixpath], [pathlib],
    [str.strip], [readlines]), followed by the properties of the tool.

    Conventions.  A Python [str] is a Rocq [string]; one [ascii] stands for
    one character of the [str] (so [String.length] is Python's [len]).
    Paths are POSIX paths.  The output stream is the text written so far.

    The tree walker comes twice: first as the run in which nothing raises
    on the way out of [process_directory], then, in the module [Full], with
    the calls that end the run and with the symbolic links that [os.walk]
    does not follow. *)

From Stdlib Require Import List String Ascii Bool Arith ZArith Lia Strings.Byte.
From Stdlib Require Import Numbers.Cyclic.Int63.PrimInt63 Floats.PrimFloat.
Import ListNotations.

Local Open Scope list_scope.
Local Open Scope string_scope.

(** ** Small string library *)

Module Str.

(** [s.split(sep)] for a one-character separator: never empty. *)
Fixpoint split (sep : ascii) (s : string) : list string :=
  match s with
  | EmptyString => [EmptyString]
  | String c rest =>
      if Ascii.eqb c sep then EmptyString :: split sep rest
      else match split sep rest with
           | h :: t => String c h :: t
           | [] => [String c EmptyString]
           end
  end.

(** [sep.join(l)]. *)
Fixpoint join (sep : string) (l : list string) : string :=
  match l with
  | [] => EmptyString
  | [x] => x
  | x :: rest => x ++ sep ++ join sep rest
  end.

(** [c in s]. *)
Fixpoint mem (c : ascii) (s : string) : bool :=
  match s with
  | EmptyString => false
  | String d rest => Ascii.eqb c d || mem c rest
  end.

(** [c * n]. *)
Fixpoint replicate (n : nat) (c : ascii) : string :=
  match n with
  | O => EmptyString
  | S k => String c (replicate k c)
  end.

(** [s.endswith(c)]. *)
Fixpoint endswith (c : ascii) (s : string) : bool :=
  match s with
  | EmptyString => false
  | String d EmptyString => Ascii.eqb d c
  | String _ rest => endswith c rest
  end.

(** [s.startswith(p)]. *)
Fixpoint startswith (p s : string) : bool :=
  match p with
  | EmptyString => true
  | String a p' =>
      match s with
      | EmptyString => false
      | String b s' => Ascii.eqb a b && startswith p' s'
      end
  end.

Definition nonempty (s : string) : bool :=
  match s with EmptyString => false | _ => true end.

End Str.

(** ** fnmatch

    [fnmatch.fnmatch(name, pat)] on POSIX: [os.path.normcase] is the
    identity, the pattern is translated by [fnmatch.translate] and the
    result must match the whole of [name].  The translation (that of
    CPython 3.9 and later) is modelled as a list of tokens instead of a
    regular expression. *)

Module Glob.

Inductive class_item : Type :=
| CChar (c : ascii)
| CRange (lo hi : ascii).

Inductive token : Type :=
| TStar
| TAny
| TLit (c : ascii)
| TClass (negated : bool) (items : list class_item).

Definition code (c : ascii) : nat := nat_of_ascii c.

(** The body of a bracket expression, read left to right: [lo-hi] with a
    character on both sides of the hyphen is a range, everything else
    stands for itself. *)
Fixpoint class_items (body : string) : list class_item :=
  match body with
  | EmptyString => []
  | String lo rest =>
      match rest with
      | String "-" (String hi rest') => CRange lo hi :: class_items rest'
      | _ => CChar lo :: class_items rest
      end
  end.

(** "Remove empty ranges -- invalid in RE." *)
Definition nonempty_range (i : class_item) : bool :=
  match i with
  | CChar _ => true
  | CRange lo hi => Nat.leb (code lo) (code hi)
  end.

(** [stuff = pat[i:j]] turned into a character class.  A leading [!]
    negates.  When the removal of empty ranges leaves a [!] in front,
    [translate] tests [stuff[0] == '!'] on the result, so that class is
    negated as well. *)
Definition class_of (stuff : string) : token :=
  match stuff with
  | String "!" body => TClass true (filter nonempty_range (class_items body))
  | _ =>
      match filter nonempty_range (class_items stuff) with
      | CChar "!" :: items => TClass true items
      | CRange "!" hi :: items => TClass true (CChar "-" :: CChar hi :: items)
      | items => TClass false items
      end
  end.

(** The index [j] of the closing bracket, relative to the character after
    the opening one: an initial [!] and then an initial [\]] are skipped
    before the search. *)
Definition close_index (rest : string) : option nat :=
  let j := match String.get 0 rest with Some "!"%char => 1 | _ => 0 end in
  let j := match String.get j rest with Some "]"%char => S j | _ => j end in
  String.index j "]" rest.

(** [translate_from skip pat]: the main loop of [fnmatch.translate]; [skip]
    is the number of characters of a bracket expression still to pass
    over ([i = j+1] in the source). *)
Fixpoint translate_from (skip : nat) (pat : string) : list token :=
  match pat with
  | EmptyString => []
  | String c rest =>
      match skip with
      | S k => translate_from k rest
      | O =>
          if Ascii.eqb c "*" then TStar :: translate_from 0 rest
          else if Ascii.eqb c "?" then TAny :: translate_from 0 rest
          else if Ascii.eqb c "[" then
            match close_index rest with
            | None => TLit "[" :: translate_from 0 rest
            | Some j => class_of (String.substring 0 j rest)
                          :: translate_from (S j) rest
            end
          else TLit c :: translate_from 0 rest
      end
  end.

Definition translate (pat : string) : list token := translate_from 0 pat.

Definition item_matches (c : ascii) (i : class_item) : bool :=
  match i with
  | CChar d => Ascii.eqb c d
  | CRange lo hi => Nat.leb (code lo) (code c) && Nat.leb (code c) (code hi)
  end.

Definition class_matches (negated : bool) (items : list class_item)
    (c : ascii) : bool :=
  xorb negated (existsb (item_matches c) items).

(** Whole-string match of a token list. *)
Fixpoint match_tokens (ts : list token) (s : string) : bool :=
  match ts with
  | [] => match s with EmptyString => true | _ => false end
  | TStar :: ts' =>
      (fix star (s : string) : bool :=
         match_tokens ts' s
         || match s with
            | EmptyString => false
            | String _ s' => star s'
            end) s
  | TAny :: ts' =>
      match s with
      | EmptyString => false
      | String _ s' => match_tokens ts' s'
      end
  | TLit c :: ts' =>
      match s with
      | EmptyString => false
      | String d s' => Ascii.eqb c d && match_tokens ts' s'
      end
  | TClass neg items :: ts' =>
      match s with
      | EmptyString => false
      | String d s' => class_matches neg items d && match_tokens ts' s'
      end
  end.

Definition fnmatch (name pat : string) : bool :=
  match_tokens (translate pat) name.

(** A pattern without [*], [?] and [[]. *)
Definition wildcard_free (pat : string) : bool :=
  negb (Str.mem "*" pat) && negb (Str.mem "?" pat) && negb (Str.mem "[" pat).

End Glob.

Example glob1 : Glob.fnmatch "app.log" "*.log" = true. Proof. reflexivity. Qed.
Example glob2 : Glob.fnmatch "access.log.txt" "*.log" = false. Proof. reflexivity. Qed.
Example glob3 : Glob.fnmatch "a/b/c.log" "*.log" = true. Proof. reflexivity. Qed.
Example glob4 : Glob.fnmatch "file7" "file[0-9]" = true. Proof. reflexivity. Qed.
Example glob5 : Glob.fnmatch "filex" "file[!0-9]" = true. Proof. reflexivity. Qed.
Example glob6 : Glob.fnmatch "a[b" "a[b" = true. Proof. reflexivity. Qed.
Example glob7 : Glob.fnmatch "a]" "a[]]" = true. Proof. reflexivity. Qed.
Example glob8 : Glob.fnmatch "xnode_modules" "node_modules" = false. Proof. reflexivity. Qed.
Example glob9 : Glob.fnmatch "ab" "a?" = true. Proof. reflexivity. Qed.
Example glob10 : Glob.fnmatch "-" "[a-]" = true. Proof. reflexivity. Qed.
Example glob11 : Glob.fnmatch "b" "[a-c-e]" = true. Proof. reflexivity. Qed.
Example glob12 : Glob.fnmatch "d" "[a-c-e]" = false. Proof. reflexivity. Qed.
Example glob13 : Glob.fnmatch "x" "[z-a]" = false. Proof. reflexivity. Qed.

(** ** posixpath and pathlib *)

Module PosixPath.

Definition sep : ascii := "/".

(** [os.path.join(a, *p)]. *)
Definition join2 (path b : string) : string :=
  if Str.startswith "/" b then b
  else if negb (Str.nonempty path) || Str.endswith sep path then path ++ b
  else path ++ "/" ++ b.

Definition join (a : string) (p : list string) : string :=
  fold_left join2 p a.

(** [os.path.basename(p)]: what follows the last slash. *)
Definition basename (p : string) : string :=
  last (Str.split sep p) EmptyString.

Definition isabs (p : string) : bool := Str.startswith "/" p.

(** One round of the loop of [normpath] over the components. *)
Definition norm_step (initial_slashes : nat) (new_comps : list string)
    (comp : string) : list string :=
  if String.eqb comp "" || String.eqb comp "." then new_comps
  else if negb (String.eqb comp "..")
          || (Nat.eqb initial_slashes 0
              && match new_comps with [] => true | _ => false end)
          || match new_comps with
             | [] => false
             | _ => String.eqb (last new_comps "") ".."
             end
  then (new_comps ++ [comp])%list
  else removelast new_comps.

Definition initial_slashes (path : string) : nat :=
  if Str.startswith "/" path then
    if Str.startswith "//" path && negb (Str.startswith "///" path)
    then 2 else 1
  else 0.

(** [os.path.normpath(path)]. *)
Definition normpath (path : string) : string :=
  match path with
  | EmptyString => "."
  | _ =>
      let n := initial_slashes path in
      let comps := fold_left (norm_step n) (Str.split sep path) [] in
      let path' := Str.replicate n sep ++ Str.join "/" comps in
      match path' with EmptyString => "." | _ => path' end
  end.

(** [os.path.abspath(path)] in the working directory [cwd]. *)
Definition abspath (cwd path : string) : string :=
  normpath (if isabs path then path else join cwd [path]).

(** [len(os.path.commonprefix([a, b]))] for two lists of components. *)
Fixpoint commonprefix_len (a b : list string) : nat :=
  match a, b with
  | x :: a', y :: b' =>
      if String.eqb x y then S (commonprefix_len a' b') else 0
  | _, _ => 0
  end.

Definition components (cwd path : string) : list string :=
  filter Str.nonempty (Str.split sep (abspath cwd path)).

(** [os.path.relpath(path, start)]. *)
Definition relpath (cwd path start : string) : string :=
  let start_list := components cwd start in
  let path_list := components cwd path in
  let i := commonprefix_len start_list path_list in
  let rel_list :=
    (repeat ".." (List.length start_list - i) ++ skipn i path_list)%list in
  match rel_list with
  | [] => "."
  | a :: p => join a p
  end.

(** [pathlib.PurePosixPath(p).parts]: the root, if any, then the
    components that are neither empty nor [.]. *)
Definition parts (p : string) : list string :=
  let root :=
    match initial_slashes p with
    | 0 => []
    | n => [Str.replicate n sep]
    end in
  (root ++ filter (fun x => Str.nonempty x && negb (String.eqb x "."))
                  (Str.split sep p))%list.

End PosixPath.

Example relpath1 :
  PosixPath.relpath "/home" "/r/src/node_modules/x.js" "/r" = "src/node_modules/x.js".
Proof. reflexivity. Qed.
Example relpath2 : PosixPath.relpath "/home" "/r" "/r" = ".".
Proof. reflexivity. Qed.
Example relpath3 : PosixPath.relpath "/home" "a/b" "/home/c" = "../a/b".
Proof. reflexivity. Qed.
Example parts1 : PosixPath.parts "src/node_modules/x.js" = ["src"; "node_modules"; "x.js"].
Proof. reflexivity. Qed.
Example parts2 : PosixPath.parts "." = [].
Proof. reflexivity. Qed.
Example basename1 : PosixPath.basename "src/node_modules/x.js" = "x.js".
Proof. reflexivity. Qed.
Example normpath1 : PosixPath.normpath "/a//b/./c/../d/" = "/a/b/d".
Proof. reflexivity. Qed.
Example glob14 : Glob.fnmatch "q" "[b-a!]" = true. Proof. reflexivity. Qed.
Example glob15 : Glob.fnmatch "]" "[!]]" = false. Proof. reflexivity. Qed.
Example glob16 : Glob.fnmatch "[!]" "[!]" = true. Proof. reflexivity. Qed.

(** ** The program *)

(** [default_ignores] of [read_repoignore]. *)
Definition default_ignores : list string :=
  [ "node_modules"; "vendor"; ".vscode"; "bootstrap/cache"; "storage";
    "public/vendor"; "public/.htaccess"; "public/favicon.ico"; "public/hot";
    "public/robots.txt"; "database/data"; "tests"; ".env"; ".git";
    "repo_contents.py"; "repository_contents.txt"; "artisan";
    "package-lock.json"; "composer.lock"; "phpunit.xml"; "strategy_results";
    "trailing_stop_analysis"; "50k.csv" ].

Section PathFilter.

(** The working directory of the process, read by [os.path.abspath]. *)
Variable cwd : string.

(** [os.path.join( *parts[:i+1])]; the slice is never empty in the loop. *)
Definition partial_path (parts : list string) (i : nat) : string :=
  match firstn (i + 1) parts with
  | [] => EmptyString
  | a :: p => PosixPath.join a p
  end.

(** The inner loop [for i in range(len(parts))]. *)
Fixpoint parent_matches (parts : list string) (pattern : string)
    (range : list nat) : bool :=
  match range with
  | [] => false
  | i :: range' =>
      if Glob.fnmatch (partial_path parts i) pattern then true
      else parent_matches parts pattern range'
  end.

(** The outer loop [for pattern in ignore_patterns]. *)
Fixpoint ignore_loop (rel_path : string) (ignore_patterns : list string)
    : bool :=
  match ignore_patterns with
  | [] => false
  | pattern :: rest =>
      if Glob.fnmatch rel_path pattern
         || Glob.fnmatch (PosixPath.basename rel_path) pattern
      then true
      else
        let parts := PosixPath.parts rel_path in
        if parent_matches parts pattern (seq 0 (List.length parts)) then true
        else ignore_loop rel_path rest
  end.

(** [should_ignore(path, base_dir, ignore_patterns)]. *)
Definition should_ignore (path base_dir : string)
    (ignore_patterns : list string) : bool :=
  let rel_path := PosixPath.relpath cwd path base_dir in
  ignore_loop rel_path ignore_patterns.

End PathFilter.

Example ignore1 :
  should_ignore "/" "/r/node_modules/a/b.js" "/r" default_ignores = true.
Proof. reflexivity. Qed.
Example ignore2 :
  should_ignore "/" "/r/src/node_modules/a/b.js" "/r" default_ignores = false.
Proof. reflexivity. Qed.
Example ignore3 :
  should_ignore "/" "/r/src/node_modules" "/r" default_ignores = true.
Proof. reflexivity. Qed.
Example ignore4 :
  should_ignore "/" "/r/src/main.py" "/r" default_ignores = false.
Proof. reflexivity. Qed.

(** *** Binary detector *)

(** Python's [int / int] for the sizes at hand (both far below [2^53]):
    the quotient of the two numbers as binary64 floats, and
    [ZeroDivisionError] ([None]) for a zero divisor. *)
Module PyFloat.

Fixpoint int_of_pos (p : positive) : PrimInt63.int :=
  match p with
  | xH => 1%uint63
  | xO q => PrimInt63.lsl (int_of_pos q) 1%uint63
  | xI q => PrimInt63.lor (PrimInt63.lsl (int_of_pos q) 1%uint63) 1%uint63
  end.

Definition of_N (n : N) : PrimFloat.float :=
  match n with
  | N0 => PrimFloat.of_uint63 0%uint63
  | Npos p => PrimFloat.of_uint63 (int_of_pos p)
  end.

Definition truediv (a b : N) : option PrimFloat.float :=
  match b with
  | N0 => None
  | _ => Some (PrimFloat.div (of_N a) (of_N b))
  end.

(** The literal [0.1]: the binary64 number nearest to one tenth. *)
Definition one_tenth : PrimFloat.float := 0x1.999999999999ap-4%float.

Definition gt (x y : PrimFloat.float) : bool := PrimFloat.ltb y x.

End PyFloat.

(** [c < 32 and c not in (9, 10, 13)]. *)
Definition is_control (c : byte) : bool :=
  let n := Byte.to_N c in
  N.ltb n 32 && negb (N.eqb n 9 || N.eqb n 10 || N.eqb n 13).

(** [sum(1 for c in sample if ...)]. *)
Definition control_chars (sample : list byte) : N :=
  N.of_nat (List.length (filter is_control sample)).

(** [b'\x00' in sample]. *)
Definition has_null (sample : list byte) : bool :=
  existsb (Byte.eqb x00) sample.

(** [is_likely_binary(file_path, sample_size)].  [contents] is what the file
    system holds at [file_path]: [None] when opening or reading the file
    raises, the bytes of the file otherwise.  Every exception raised in the
    body, the [ZeroDivisionError] of the division included, is caught by
    [except Exception] and answers [True]. *)
Definition is_likely_binary (contents : option (list byte))
    (sample_size : nat) : bool :=
  match contents with
  | None => true
  | Some bytes =>
      let sample := firstn sample_size bytes in
      if has_null sample then true
      else
        match PyFloat.truediv (control_chars sample)
                              (N.of_nat (List.length sample)) with
        | None => true
        | Some ratio =>
            if PyFloat.gt ratio PyFloat.one_tenth then true else false
        end
  end.

Definition sample_size : nat := N.to_nat 8192.

Example binary1 : is_likely_binary (Some [x61; x00; x62]) sample_size = true.
Proof. reflexivity. Qed.
Example binary2 :
  is_likely_binary (Some [x01; x61; x62; x63; x64; x65; x66; x67; x68; x0a])
                   sample_size = false.
Proof. vm_compute. reflexivity. Qed.
Example binary3 :
  is_likely_binary (Some [x01; x61; x62; x63; x64; x65; x66; x67; x68])
                   sample_size = true.
Proof. vm_compute. reflexivity. Qed.
Example binary4 : is_likely_binary (Some []) sample_size = true.
Proof. reflexivity. Qed.

(** *** Ignore-pattern loader *)

Module Text.

Definition LF : ascii := "010".
Definition CR : ascii := "013".

(** Reading in text mode: [\r\n] and a lone [\r] become [\n]. *)
Fixpoint universal_newlines (s : string) : string :=
  match s with
  | EmptyString => EmptyString
  | String c rest =>
      if Ascii.eqb c CR then
        match rest with
        | String d rest' =>
            if Ascii.eqb d LF then String LF (universal_newlines rest')
            else String LF (universal_newlines rest)
        | EmptyString => String LF EmptyString
        end
      else String c (universal_newlines rest)
  end.

(** [f.readlines()] on translated text: every line keeps its [\n]. *)
Fixpoint readlines (s : string) : list string :=
  match s with
  | EmptyString => []
  | String c rest =>
      if Ascii.eqb c LF then String c EmptyString :: readlines rest
      else match readlines rest with
           | [] => [String c EmptyString]
           | h :: t => String c h :: t
           end
  end.

(** [str.isspace] for one character (code points below 256). *)
Definition is_space (c : ascii) : bool :=
  let n := nat_of_ascii c in
  (Nat.leb 9 n && Nat.leb n 13) || (Nat.leb 28 n && Nat.leb n 32)
  || Nat.eqb n 133 || Nat.eqb n 160.

Fixpoint lstrip (s : string) : string :=
  match s with
  | EmptyString => EmptyString
  | String c rest => if is_space c then lstrip rest else s
  end.

Fixpoint rstrip (s : string) : string :=
  match s with
  | EmptyString => EmptyString
  | String c rest =>
      match rstrip rest with
      | EmptyString => if is_space c then EmptyString else String c EmptyString
      | r => String c r
      end
  end.

(** [s.strip()]. *)
Definition strip (s : string) : string := rstrip (lstrip s).

End Text.

(** What the file system holds at one path, for a reader in text mode. *)
Inductive text_file : Type :=
| Missing
| Unreadable (error : string)
| Readable (content : string).

(** The outcome of a call that may raise. *)
Inductive outcome (A : Type) : Type :=
| Returned (a : A)
| Raised (error : string).
Arguments Returned {A} a.
Arguments Raised {A} error.

(** [read_repoignore(directory)] over a file system [fs] mapping a path to
    what text-mode reading finds there. *)
Definition read_repoignore (fs : string -> text_file) (directory : string)
    : outcome (list string) :=
  let ignore_file := PosixPath.join directory [".repoignore"] in
  let ignore_patterns := default_ignores in
  match fs ignore_file with
  | Missing => Returned ignore_patterns
  | Unreadable e => Raised e
  | Readable content =>
      let lines := Text.readlines (Text.universal_newlines content) in
      let custom_patterns :=
        map Text.strip
            (filter (fun line => Str.nonempty (Text.strip line)) lines) in
      Returned (ignore_patterns ++ custom_patterns)%list
  end.

Example readlines1 :
  Text.readlines ("a" ++ String Text.LF ("" ++ String Text.LF "b"))
  = ["a" ++ String Text.LF ""; String Text.LF ""; "b"].
Proof. reflexivity. Qed.
Example strip1 : Text.strip "  *.log   " = "*.log".
Proof. reflexivity. Qed.

(** *** Tree walker *)

(** A regular file as the walker meets it. *)
Record file : Type := {
  file_name : string;
  (** [file_path.resolve()] *)
  file_resolved : string;
  (** binary-mode reading: [None] when [open] or [read] raises *)
  file_bytes : option (list byte);
  (** [open(file_path, 'r', encoding='utf-8').read()]: the text, or the
      [str(e)] of the [UnicodeDecodeError] or [IOError] *)
  file_text : outcome string
}.

(** A directory as [os.walk] sees it: [Unlistable] when [scandir] fails
    (the error is dropped and nothing is yielded), else its files and its
    subdirectories in listing order. *)
#[local] Unset Elimination Schemes.
Inductive dir : Type :=
| Unlistable
| Dir (files : list file) (dirs : list (string * dir)).
#[local] Set Elimination Schemes.

(** What the walker did, in order; a directory or file is named by its path
    components below the traversal root.  [Listed root]: [os.walk] reached
    the directory and asked for its listing; [Included] and [Skipped]: a
    block, or a banner, was written for the file. *)
Inductive event : Type :=
| Listed (root : list string)
| Included (file_path : list string) (content : string)
| Skipped (file_path : list string) (error : string).

(** The output file: the text written so far, and the record of events. *)
Record stream : Type := {
  written : string;
  events : list event
}.

Definition write (out : stream) (text : string) : stream :=
  {| written := written out ++ text; events := events out |}.

Definition record (out : stream) (e : event) : stream :=
  {| written := written out; events := (events out ++ [e])%list |}.

Definition newline : string := String Text.LF EmptyString.

Section Walker.

Variable cwd : string.
(** [directory], the traversal root. *)
Variable directory : string.
Variable ignore_patterns : list string.
(** [output_path.resolve()] *)
Variable output_resolved : string.

(** The path of the entry with components [rel] below [directory], as
    [os.walk] builds it by repeated [os.path.join]. *)
Definition path_of (rel : list string) : string :=
  PosixPath.join directory rel.

(** The lines written for a file read successfully. *)
Definition write_contents (out : stream) (rel_path content : string)
    : stream :=
  let out := write out ("File: " ++ rel_path ++ newline) in
  let out :=
    write out (Str.replicate (String.length rel_path + 6) "=" ++ newline) in
  let out := write out content in
  let out :=
    if negb (Str.endswith Text.LF content) then write out newline else out in
  write out newline.

(** The line written for a file whose reading raised [e]. *)
Definition write_skipped (out : stream) (rel_path e : string) : stream :=
  write out ("File: " ++ rel_path ++ " (Skipped: "
             ++ String.substring 0 100 e ++ ")" ++ newline ++ newline).

(** The body of [for file in files], in the directory [root]. *)
Definition process_file (root : list string) (out : stream) (f : file)
    : stream :=
  let file_path := (root ++ [file_name f])%list in
  if String.eqb (file_resolved f) output_resolved then out
  else if should_ignore cwd (path_of file_path) directory ignore_patterns
  then out
  else if is_likely_binary (file_bytes f) sample_size then out
  else
    let rel_path := PosixPath.relpath cwd (path_of file_path) directory in
    match file_text f with
    | Returned content =>
        record (write_contents out rel_path content)
               (Included file_path content)
    | Raised e =>
        record (write_skipped out rel_path e) (Skipped file_path e)
    end.

(** [for root, dirs, files in os.walk(directory)], from the directory
    [root] downwards: prune [dirs], handle [files], then descend into what
    is left of [dirs]. *)
Fixpoint walk (d : dir) (root : list string) (out : stream) : stream :=
  match d with
  | Unlistable => record out (Listed root)
  | Dir files dirs =>
      let out := record out (Listed root) in
      let children :=
        map (fun entry => (fst entry, walk (snd entry))) dirs in
      let dirs' :=
        filter (fun entry =>
                  negb (should_ignore cwd
                          (path_of (root ++ [fst entry])%list)
                          directory ignore_patterns))
               children in
      let out := fold_left (process_file root) files out in
      fold_left (fun out entry =>
                   snd entry (root ++ [fst entry])%list out)
                dirs' out
  end.

(** [process_directory(directory, output_file, ignore_patterns)] on the
    tree [top] found at [directory]. *)
Definition process_directory (top : dir) (output_file : stream) : stream :=
  walk top [] output_file.

End Walker.

(** *** Tree walker, with the calls that end the run

    The walker above follows a run in which no statement of the loop body
    raises outside the inner [try] and no subdirectory is a symbolic link.
    The walker of this section leaves both assumptions out.

    Two calls of the loop body can raise on the way to the
    [except Exception] of [process_directory], which prints the error and
    ends the run with [sys.exit(1)]: [file_path.resolve()], which stands
    before the inner [try], and [output_file.write], whose
    [UnicodeEncodeError] the inner [except (UnicodeDecodeError, IOError)]
    does not catch.  The destination is opened with [encoding='utf-8'], so a
    write raises when its text holds a lone surrogate, which is how
    [os.walk] hands over the bytes of a file name that are not UTF-8.

    And [os.walk], called without [followlinks], lists a symbolic link to a
    directory among [dirs] and does not enter it. *)

(** What the platform answers besides the tree. *)
Record platform : Type := {
  (** [text.encode('utf-8')] succeeds: [text] holds no lone surrogate (so
      it does for the texts of the program itself and for a content decoded
      from UTF-8; a relative path is where a lone surrogate comes from) *)
  encodable : string -> bool;
  (** the [str(e)] of the exception of [file_path.resolve()] for the file
      with these components, when the call raises; when it returns, it
      returns [file_resolved] *)
  resolve_error : list string -> option string;
  (** [os.path.islink] of the directory entry with these components *)
  is_link : list string -> bool
}.

(** The exceptions that leave the loop body. *)
Inductive failure : Type :=
| EncodeError (text : string)
| ResolveError (error : string).

(** The state of the run: [Going], or [Aborted] by an exception on its way
    to [sys.exit(1)], with the output as it was when the exception was
    raised. *)
Inductive progress : Type :=
| Going (out : stream)
| Aborted (out : stream) (why : failure).

(** The statements that follow one that raised are not executed. *)
Definition and_then (p : progress) (next : stream -> progress) : progress :=
  match p with
  | Going out => next out
  | Aborted _ _ => p
  end.

Module Full.

Section Walker.

Variable pf : platform.
Variable cwd : string.
Variable directory : string.
Variable ignore_patterns : list string.
Variable output_resolved : string.

(** [output_file.write(text)]: nothing is written when the text cannot be
    encoded. *)
Definition write (out : stream) (text : string) : progress :=
  if encodable pf text then Going (write out text)
  else Aborted out (EncodeError text).

Definition write_contents (out : stream) (rel_path content : string)
    : progress :=
  and_then (write out ("File: " ++ rel_path ++ newline)) (fun out =>
  and_then (write out (Str.replicate (String.length rel_path + 6) "="
                       ++ newline)) (fun out =>
  and_then (write out content) (fun out =>
  and_then (if negb (Str.endswith Text.LF content) then write out newline
            else Going out) (fun out =>
  write out newline)))).

Definition write_skipped (out : stream) (rel_path e : string) : progress :=
  write out ("File: " ++ rel_path ++ " (Skipped: "
             ++ String.substring 0 100 e ++ ")" ++ newline ++ newline).

(** The body of [for file in files], in the directory [root]. *)
Definition process_file (root : list string) (out : stream) (f : file)
    : progress :=
  let file_path := (root ++ [file_name f])%list in
  match resolve_error pf file_path with
  | Some error => Aborted out (ResolveError error)
  | None =>
      if String.eqb (file_resolved f) output_resolved then Going out
      else if should_ignore cwd (path_of directory file_path) directory
                ignore_patterns
      then Going out
      else if is_likely_binary (file_bytes f) sample_size then Going out
      else
        let rel_path :=
          PosixPath.relpath cwd (path_of directory file_path) directory in
        match file_text f with
        | Returned content =>
            and_then (write_contents out rel_path content) (fun out =>
            Going (record out (Included file_path content)))
        | Raised e =>
            and_then (write_skipped out rel_path e) (fun out =>
            Going (record out (Skipped file_path e)))
        end
  end.

(** [for file in files]. *)
Definition process_files (root : list string) (files : list file)
    (p : progress) : progress :=
  fold_left (fun p f => and_then p (fun out => process_file root out f))
            files p.

(** [for root, dirs, files in os.walk(directory)], from the directory
    [root] downwards: prune [dirs], handle [files], then descend into what
    is left of [dirs] and is not a symbolic link. *)
Fixpoint walk (d : dir) (root : list string) (out : stream) : progress :=
  match d with
  | Unlistable => Going (record out (Listed root))
  | Dir files dirs =>
      let out := record out (Listed root) in
      let children :=
        map (fun entry => (fst entry, walk (snd entry))) dirs in
      let dirs' :=
        filter (fun entry =>
                  negb (should_ignore cwd
                          (path_of directory (root ++ [fst entry])%list)
                          directory ignore_patterns))
               children in
      let p := process_files root files (Going out) in
      fold_left (fun p entry =>
                   and_then p (fun out =>
                     let new_path := (root ++ [fst entry])%list in
                     if is_link pf new_path then Going out
                     else snd entry new_path out))
                dirs' p
  end.

(** [process_directory(directory, output_file, ignore_patterns)] on the
    tree [top] found at [directory]; [Aborted]: the error is printed and
    the run ends with [sys.exit(1)]. *)
Definition process_directory (top : dir) (output_file : stream) : progress :=
  walk top [] output_file.

End Walker.

End Full.

(** *** Entry point *)

(** The mode of [open] on the destination: ['w'] truncates, ['a'] keeps. *)
Inductive open_mode : Type := ModeW | ModeA.

(** Opening the destination file, which held [previous] (if it existed). *)
Definition open_output (mode : open_mode) (previous : option string)
    : stream :=
  {| written := match mode, previous with
                | ModeA, Some old => old
                | _, _ => EmptyString
                end;
     events := [] |}.

Definition output_filename : string := "repository_contents.txt".

(** [main()], after the checks of the command line: [argv1] is the directory
    argument (known to be a directory), [fs] the text files, [top] the tree
    at the directory, [resolve] the resolution of symbolic links, [now] the
    formatted time and [previous] the old content of the destination. *)
Definition main (cwd argv1 : string) (fs : string -> text_file) (top : dir)
    (resolve : string -> string) (now : string) (previous : option string)
    : outcome stream :=
  let directory := PosixPath.abspath cwd argv1 in
  let output_path := PosixPath.join directory [output_filename] in
  match read_repoignore fs directory with
  | Raised e => Raised e
  | Returned ignore_patterns =>
      let output_file := open_output ModeW previous in
      let output_file := write output_file ("Repository Contents" ++ newline) in
      let output_file := write output_file ("==================" ++ newline) in
      let output_file :=
        write output_file ("Directory: " ++ directory ++ newline) in
      let output_file :=
        write output_file ("Generated on: " ++ now ++ newline ++ newline) in
      Returned (process_directory cwd directory ignore_patterns
                  (resolve output_path) top output_file)
  end.

(** A small project: [README], a text file that is not UTF-8, an empty
    file, the destination itself, [src/main.py],
    [src/node_modules/lib.js] and [node_modules/pkg/index.js]. *)
Definition text_of (name content : string) : file :=
  {| file_name := name; file_resolved := "/r/" ++ name;
     file_bytes := Some [x61]; file_text := Returned content |}.

Definition demo_readme : file := text_of "README" "hello".

Definition demo_unreadable : file :=
  {| file_name := "latin1.txt"; file_resolved := "/r/latin1.txt";
     file_bytes := Some [xe9]; file_text := Raised "invalid start byte" |}.

Definition demo_tree : dir :=
  Dir [ demo_readme;
        demo_unreadable;
        {| file_name := "empty.txt"; file_resolved := "/r/empty.txt";
           file_bytes := Some []; file_text := Returned "" |};
        {| file_name := "repository_contents.txt";
           file_resolved := "/r/repository_contents.txt";
           file_bytes := Some [x61]; file_text := Returned "old" |} ]
      [ ("src",
         Dir [ text_of "main.py" ("print(1)" ++ newline) ]
             [ ("node_modules",
                Dir [ text_of "lib.js" "x" ] [ ("deep", Unlistable) ]) ]);
        ("node_modules", Dir [] [ ("pkg", Dir [ text_of "index.js" "y" ] []) ]) ].

Definition demo_start : stream :=
  {| written := EmptyString; events := [] |}.

Definition demo_repoignore : string :=
  "  *.log  " ++ newline ++ newline ++ "build" ++ String Text.CR newline
  ++ "   " ++ newline ++ "tmp?".

Definition demo_fs (p : string) : text_file :=
  if String.eqb p "/r/.repoignore" then Readable demo_repoignore else Missing.

Definition demo_run : outcome stream :=
  main "/" "/r" demo_fs demo_tree (fun p => p) "2024-01-01 00:00:00"
       (Some "stale").

(** A platform on which the byte [E9] of a file name is not UTF-8 (the
    character that stands for it cannot be encoded), resolving [loop] raises
    and [vendor] is a symbolic link to a directory. *)
Definition demo_platform : platform :=
  {| encodable := fun text => negb (Str.mem "233"%char text);
     resolve_error := fun file_path =>
       if list_eq_dec string_dec file_path ["loop"]
       then Some "Symlink loop from '/r/loop'" else None;
     is_link := fun new_path =>
       if list_eq_dec string_dec new_path ["vendor"] then true else false |}.

Definition demo_bad_name : string := "caf" ++ String "233"%char ".txt".

(** [README], then a text file in Latin-1 whose name is in Latin-1 too, then
    [z.txt]. *)
Definition demo_decode_error : string :=
  "'utf-8' codec can't decode byte 0xe9 in position 3: "
  ++ "invalid continuation byte".

Definition demo_bad_unreadable : file :=
  {| file_name := demo_bad_name; file_resolved := "/r/" ++ demo_bad_name;
     file_bytes := Some [x63; x61; x66; xe9; x0a];
     file_text := Raised demo_decode_error |}.

Definition demo_unreadable_tree : dir :=
  Dir [ demo_readme; demo_bad_unreadable; text_of "z.txt" "z" ] [].

(** [README], then a UTF-8 text file whose name is in Latin-1, then
    [z.txt]. *)
Definition demo_bad_text : file :=
  {| file_name := demo_bad_name; file_resolved := "/r/" ++ demo_bad_name;
     file_bytes := Some [x68; x65; x6c; x6c; x6f; x0a];
     file_text := Returned ("hello" ++ newline) |}.

Definition demo_named_tree : dir :=
  Dir [ demo_readme; demo_bad_text; text_of "z.txt" "z" ] [].

(** [README] and the directories [src], with [main.py], and [vendor], a
    symbolic link to a directory that holds [a.txt]. *)
Definition demo_linked_tree : dir :=
  Dir [ demo_readme ]
      [ ("src", Dir [ text_of "main.py" ("print(1)" ++ newline) ] []);
        ("vendor", Dir [ text_of "a.txt" "a" ] []) ].

(** * Properties *)

(** ** Glob matching *)

Module GlobFacts.
Import Glob.



Lemma star_nil ts :
  match_tokens (TStar :: ts) EmptyString = match_tokens ts EmptyString.
Proof. simpl. now rewrite orb_false_r. Qed.

Lemma star_cons ts c s :
  match_tokens (TStar :: ts) (String c s)
  = match_tokens ts (String c s) || match_tokens (TStar :: ts) s.
Proof. reflexivity. Qed.

Lemma star_sound ts s :
  match_tokens (TStar :: ts) s = true ->
  exists u v, s = u ++ v /\ match_tokens ts v = true.
Proof.
  induction s as [|c s IH].
  - rewrite star_nil. intro H. now exists EmptyString, EmptyString.
  - rewrite star_cons. intro H. apply orb_true_iff in H as [H|H].
    + now exists EmptyString, (String c s).
    + destruct (IH H) as (u & v & -> & Hv).
      now exists (String c u), v.
Qed.

Lemma star_complete ts u v :
  match_tokens ts v = true -> match_tokens (TStar :: ts) (u ++ v) = true.
Proof.
  intro Hv. induction u as [|c u IH]; simpl append.
  - destruct v; [now rewrite star_nil | rewrite star_cons, Hv; reflexivity].
  - rewrite star_cons, IH. apply orb_true_r.
Qed.




(** A pattern without wildcards translates to its own characters. *)
Fixpoint literals (s : string) : list token :=
  match s with
  | EmptyString => []
  | String c rest => TLit c :: literals rest
  end.

Lemma wildcard_free_cons c pat :
  wildcard_free (String c pat) = true ->
  Ascii.eqb c "*" = false /\ Ascii.eqb c "?" = false
  /\ Ascii.eqb c "[" = false /\ wildcard_free pat = true.
Proof.
  unfold wildcard_free. cbn [Str.mem].
  rewrite (Ascii.eqb_sym "*" c), (Ascii.eqb_sym "?" c), (Ascii.eqb_sym "[" c).
  destruct (Ascii.eqb c "*"), (Ascii.eqb c "?"), (Ascii.eqb c "[");
    simpl; intro H; try discriminate; try (rewrite ?andb_false_r in H; discriminate).
  repeat split; assumption.
Qed.

Lemma translate_wildcard_free pat :
  wildcard_free pat = true -> translate pat = literals pat.
Proof.
  unfold translate. induction pat as [|c pat IH]; intro H.
  - reflexivity.
  - apply wildcard_free_cons in H as (H1 & H2 & H3 & H4).
    simpl. rewrite H1, H2, H3. f_equal. now apply IH.
Qed.

Lemma match_literals pat :
  forall s, match_tokens (literals pat) s = String.eqb s pat.
Proof.
  induction pat as [|c pat IH]; intros [|d s]; simpl; try reflexivity.
  rewrite IH, (Ascii.eqb_sym c d). 
  destruct (Ascii.eqb d c); reflexivity.
Qed.

(** A wildcard-free pattern matches exactly itself. *)
Lemma fnmatch_wildcard_free name pat :
  wildcard_free pat = true -> fnmatch name pat = String.eqb name pat.
Proof.
  intro H. unfold fnmatch. rewrite (translate_wildcard_free _ H).
  apply match_literals.
Qed.

End GlobFacts.

(** ** Path filter *)

Section PathFilterFacts.

Variable cwd : string.

Lemma parent_matches_iff parts pattern range :
  parent_matches parts pattern range = true <->
  exists i, In i range /\ Glob.fnmatch (partial_path parts i) pattern = true.
Proof.
  induction range as [|i range IH]; simpl.
  - split; [discriminate | intros (i & [] & _)].
  - destruct (Glob.fnmatch (partial_path parts i) pattern) eqn:E.
    + split; [intros _; exists i; auto | reflexivity].
    + rewrite IH. split.
      * intros (j & Hj & Hm). exists j; auto.
      * intros (j & [<-|Hj] & Hm); [congruence | exists j; auto].
Qed.

(** One pattern excludes the relative path [rel_path]: the tests (a), (b)
    and (c) made for each pattern. *)
Definition pattern_hits (rel_path pattern : string) : Prop :=
  Glob.fnmatch rel_path pattern = true
  \/ Glob.fnmatch (PosixPath.basename rel_path) pattern = true
  \/ exists i, i < List.length (PosixPath.parts rel_path)
               /\ Glob.fnmatch (partial_path (PosixPath.parts rel_path) i)
                               pattern = true.

Lemma ignore_loop_iff rel_path patterns :
  ignore_loop rel_path patterns = true <->
  exists pattern, In pattern patterns /\ pattern_hits rel_path pattern.
Proof.
  induction patterns as [|p patterns IH]; simpl.
  - split; [discriminate | intros (p & [] & _)].
  - destruct (Glob.fnmatch rel_path p) eqn:Ea; simpl.
    { split; [intros _; exists p; split; [auto | left; assumption]
             | reflexivity]. }
    destruct (Glob.fnmatch (PosixPath.basename rel_path) p) eqn:Eb; simpl.
    { split; [intros _; exists p; split; [auto | right; left; assumption]
             | reflexivity]. }
    destruct (parent_matches _ p _) eqn:Ec.
    { apply parent_matches_iff in Ec as (i & Hi & Hm).
      apply in_seq in Hi.
      split; [intros _ | reflexivity].
      exists p. split; [auto|]. right; right. exists i. split; [lia | exact Hm]. }
    rewrite IH. split.
    + intros (q & Hq & Hh). exists q; auto.
    + intros (q & [<-|Hq] & Hh); [| exists q; auto].
      exfalso. destruct Hh as [H|[H|(i & Hi & Hm)]]; try congruence.
      assert (parent_matches (PosixPath.parts rel_path) p
                (seq 0 (List.length (PosixPath.parts rel_path))) = true).
      { apply parent_matches_iff. exists i. split; [|exact Hm].
        apply in_seq. lia. }
      congruence.
Qed.

Lemma should_ignore_hits path base_dir patterns :
  should_ignore cwd path base_dir patterns = true <->
  exists pattern, In pattern patterns
                  /\ pattern_hits (PosixPath.relpath cwd path base_dir) pattern.
Proof. apply ignore_loop_iff. Qed.

(** A larger pattern list ignores at least as much. *)
Lemma should_ignore_incl path base_dir P Q :
  incl P Q ->
  should_ignore cwd path base_dir P = true ->
  should_ignore cwd path base_dir Q = true.
Proof.
  intros HPQ H. apply should_ignore_hits in H as (p & Hp & Hh).
  apply should_ignore_hits. exists p. split; [apply HPQ, Hp | exact Hh].
Qed.

End PathFilterFacts.


(** C10.  [should_ignore] is monotone in the pattern list: when every
    pattern of [P] occurs in [Q], what [P] ignores [Q] ignores too. *)
Theorem should_ignore_monotone (cwd path base_dir : string)
    (P Q : list string) :
  (forall pattern, In pattern P -> In pattern Q) ->
  should_ignore cwd path base_dir P = true ->
  should_ignore cwd path base_dir Q = true.
Proof. intro H. apply should_ignore_incl. exact H. Qed.

Lemma should_ignore_monotone_witness :
  should_ignore "/" "/r/debug.log" "/r" (default_ignores ++ ["*.log"])%list = true.
Proof.
  apply (should_ignore_monotone "/" "/r/debug.log" "/r" ["*.log"]
           (default_ignores ++ ["*.log"])%list).
  - intros p Hp. apply in_or_app. right. exact Hp.
  - vm_compute. reflexivity.
Defined.

(** ** Binary detector *)

Module RatioTable.
Import PyFloat.

(** The floats of [k], [k+1], ... ([fuel] of them). *)
Fixpoint floats_from (fuel : nat) (k : N) : list float :=
  match fuel with
  | O => []
  | S f => of_N k :: floats_from f (N.succ k)
  end.

(** Against the divisor [fn]: the first [lo] quotients must not exceed the
    float [0.1], the next [hi] must. *)
Fixpoint row_check (fn : float) (lo hi : nat) (l : list float) : bool :=
  match l with
  | [] => match lo, hi with O, O => true | _, _ => false end
  | x :: l' =>
      match lo with
      | S lo' =>
          negb (gt (PrimFloat.div x fn) one_tenth) && row_check fn lo' hi l'
      | O =>
          match hi with
          | S hi' => gt (PrimFloat.div x fn) one_tenth && row_check fn O hi' l'
          | O => true
          end
      end
  end.

(** One row for each divisor [n], [n+1], ...: the quotients of [k <= n/10]
    must not exceed [0.1], those of [n/10 < k <= n] must. *)
Fixpoint rows_check (F : list float) (n : N) (ns : list float) : bool :=
  match ns with
  | [] => true
  | fn :: ns' =>
      let t := (n / 10)%N in
      row_check fn (S (N.to_nat t)) (N.to_nat (n - t)) F
      && rows_check F (N.succ n) ns'
  end.

Definition table_ok (m : nat) : bool :=
  let F := floats_from (S m) 0 in
  rows_check F 1 (tl F).

Lemma floats_from_nth fuel :
  forall k j, j < fuel ->
  nth_error (floats_from fuel k) j = Some (of_N (k + N.of_nat j)).
Proof.
  induction fuel as [|f IH]; intros k j Hj; [lia|].
  destruct j as [|j]; cbn [floats_from nth_error].
  - now rewrite N.add_0_r.
  - rewrite IH by lia. do 2 f_equal. lia.
Qed.

Lemma row_check_spec fn :
  forall l lo hi, row_check fn lo hi l = true ->
  forall j x, nth_error l j = Some x -> j < lo + hi ->
  gt (PrimFloat.div x fn) one_tenth = negb (Nat.ltb j lo).
Proof.
  induction l as [|y l IH]; intros lo hi H j x Hx Hj.
  - destruct j; discriminate.
  - cbn [row_check] in H. destruct lo as [|lo].
    + destruct hi as [|hi]; [lia|].
      apply andb_true_iff in H as [Hy Hrest].
      destruct j as [|j]; cbn [nth_error] in Hx.
      * injection Hx as <-. exact Hy.
      * rewrite (IH 0 hi Hrest j x Hx) by lia. reflexivity.
    + apply andb_true_iff in H as [Hy Hrest].
      destruct j as [|j]; cbn [nth_error] in Hx.
      * injection Hx as <-. now apply negb_true_iff in Hy.
      * rewrite (IH lo hi Hrest j x Hx) by lia. reflexivity.
Qed.

Lemma rows_check_spec F :
  forall ns n0, rows_check F n0 ns = true ->
  forall i fn, nth_error ns i = Some fn ->
  row_check fn (S (N.to_nat ((n0 + N.of_nat i) / 10)))
            (N.to_nat ((n0 + N.of_nat i) - (n0 + N.of_nat i) / 10)) F = true.
Proof.
  induction ns as [|f ns IH]; intros n0 H i fn Hi.
  - destruct i; discriminate.
  - cbn [rows_check] in H. cbv zeta in H.
    apply andb_true_iff in H as [Hrow Hrest].
    destruct i as [|i]; cbn [nth_error] in Hi.
    + injection Hi as <-. now rewrite N.add_0_r.
    + specialize (IH _ Hrest i fn Hi).
      replace (n0 + N.of_nat (S i))%N with (N.succ n0 + N.of_nat i)%N by lia.
      exact IH.
Qed.

Lemma table_ok_spec (m : nat) :
  table_ok m = true ->
  forall k n : N, (0 < n <= N.of_nat m)%N -> (k <= n)%N ->
  gt (PrimFloat.div (of_N k) (of_N n)) one_tenth = N.ltb n (10 * k).
Proof.
  unfold table_ok. cbv zeta. cbn [floats_from tl].
  change (N.succ 0) with 1%N.
  intros H k n Hn Hk.
  assert (Hfn : nth_error (floats_from m 1) (N.to_nat n - 1) = Some (of_N n)).
  { rewrite floats_from_nth by lia. do 2 f_equal. lia. }
  pose proof (rows_check_spec _ _ _ H _ _ Hfn) as Hrow.
  replace (1 + N.of_nat (N.to_nat n - 1))%N with n in Hrow by lia.
  assert (Hfk : nth_error (of_N 0 :: floats_from m 1) (N.to_nat k)
                = Some (of_N k)).
  { change (of_N 0 :: floats_from m 1) with (floats_from (S m) 0).
    rewrite floats_from_nth by lia. do 2 f_equal. lia. }
  assert (Hd : (n = 10 * (n / 10) + n mod 10)%N) by (apply N.div_mod; lia).
  assert (Hm : (n mod 10 < 10)%N) by (apply N.mod_lt; lia).
  revert Hrow Hd Hm.
  generalize (n / 10)%N (n mod 10)%N. intros q r Hrow Hd Hm.
  rewrite (row_check_spec _ _ _ _ Hrow _ _ Hfk) by lia.
  destruct (Nat.ltb_spec (N.to_nat k) (S (N.to_nat q)));
    destruct (N.ltb_spec n (10 * k)); cbn [negb]; try reflexivity; lia.
Qed.

Lemma rows_all : table_ok (N.to_nat 8192) = true.
Proof. vm_cast_no_check (eq_refl true). Qed.

(** For every sample of at most 8192 bytes the binary64 quotient exceeds
    the float [0.1] exactly when the true ratio exceeds one tenth. *)
Lemma gt_one_tenth_exact (k n : N) :
  (0 < n <= 8192)%N -> (k <= n)%N ->
  gt (PrimFloat.div (of_N k) (of_N n)) one_tenth = N.ltb n (10 * k).
Proof.
  intros Hn Hk. apply (table_ok_spec _ rows_all).
  - lia.
  - exact Hk.
Qed.

End RatioTable.

Lemma sample_size_pos : exists m, sample_size = S m.
Proof.
  unfold sample_size. exists (Nat.pred (N.to_nat 8192)).
  assert (0 < N.to_nat 8192) by lia. lia.
Qed.

Lemma sample_length_bound (bytes : list byte) :
  (N.of_nat (List.length (firstn sample_size bytes)) <= 8192)%N.
Proof.
  pose proof (firstn_le_length sample_size bytes) as H.
  rewrite length_firstn. unfold sample_size. lia.
Qed.

Lemma control_chars_le (sample : list byte) :
  (control_chars sample <= N.of_nat (List.length sample))%N.
Proof.
  unfold control_chars. pose proof (filter_length_le is_control sample). lia.
Qed.

Lemma truediv_nonzero (a b : N) :
  b <> 0%N ->
  PyFloat.truediv a b
  = Some (PrimFloat.div (PyFloat.of_N a) (PyFloat.of_N b)).
Proof. destruct b; [congruence | reflexivity]. Qed.

(** On a sample that is not empty, and of at most 8192 bytes, the detector
    answers by the null-byte test and the exact ten-percent test. *)
Lemma is_likely_binary_sample (size : nat) (bytes : list byte) :
  let sample := firstn size bytes in
  (0 < N.of_nat (List.length sample) <= 8192)%N ->
  is_likely_binary (Some bytes) size
  = has_null sample
    || N.ltb (N.of_nat (List.length sample)) (10 * control_chars sample).
Proof.
  intros sample Hlen. unfold is_likely_binary. fold sample.
  destruct (has_null sample); [reflexivity|]. simpl orb.
  rewrite truediv_nonzero by lia.
  rewrite (RatioTable.gt_one_tenth_exact (control_chars sample)
             (N.of_nat (List.length sample)) Hlen (control_chars_le sample)).
  destruct (N.ltb _ _); reflexivity.
Qed.

Lemma is_likely_binary_nonempty (b : byte) (bytes : list byte) :
  let sample := firstn sample_size (b :: bytes) in
  is_likely_binary (Some (b :: bytes)) sample_size
  = has_null sample
    || N.ltb (N.of_nat (List.length sample)) (10 * control_chars sample).
Proof.
  apply is_likely_binary_sample.
  split; [|apply sample_length_bound].
  destruct sample_size_pos as (m & E). rewrite E. simpl. lia.
Qed.

(** C2.  On every sample that is not empty, [is_likely_binary] answers
    binary exactly when the sample holds a null byte or more than one tenth
    of its bytes are control characters other than tab, newline and carriage
    return ([len < 10 * control], so exactly ten percent is text).  On the
    empty sample, which holds no null byte and no control character, it
    answers binary all the same. *)
Theorem is_likely_binary_threshold :
  (is_likely_binary (Some []) sample_size = true
   /\ has_null (firstn sample_size []) = false
   /\ control_chars (firstn sample_size []) = 0%N)
  /\ forall (b : byte) (bytes : list byte),
       let sample := firstn sample_size (b :: bytes) in
       is_likely_binary (Some (b :: bytes)) sample_size = true
       <-> (has_null sample = true
            \/ (N.of_nat (List.length sample) < 10 * control_chars sample)%N).
Proof.
  split.
  - rewrite firstn_nil. repeat split.
  - intros b bytes sample. subst sample.
    rewrite is_likely_binary_nonempty, orb_true_iff, N.ltb_lt. reflexivity.
Qed.

(** C3.  On the empty sample the division [control_chars / len(sample)]
    divides by zero; the error is caught by [except Exception] and
    [is_likely_binary] answers [True]: an empty file counts as binary. *)
Theorem is_likely_binary_empty_sample :
  PyFloat.truediv (control_chars (firstn sample_size []))
                  (N.of_nat (List.length (firstn sample_size (@nil byte)))) = None
  /\ is_likely_binary (Some []) sample_size = true.
Proof. rewrite firstn_nil. split; reflexivity. Qed.

(** ** Strings *)

Module StrFacts.

Lemma append_assoc (a b c : string) : (a ++ b) ++ c = a ++ (b ++ c).
Proof. induction a as [|x a IH]; simpl; [reflexivity | now rewrite IH]. Qed.

Lemma append_nil_r (a : string) : a ++ EmptyString = a.
Proof. induction a as [|x a IH]; simpl; [reflexivity | now rewrite IH]. Qed.

Lemma length_append (a b : string) :
  String.length (a ++ b) = String.length a + String.length b.
Proof. induction a as [|x a IH]; simpl; [reflexivity | now rewrite IH]. Qed.

Lemma length_replicate (n : nat) (c : ascii) :
  String.length (Str.replicate n c) = n.
Proof. induction n as [|n IH]; simpl; [reflexivity | now rewrite IH]. Qed.

End StrFacts.

(** ** Paths built from file names *)

Module PathFacts.
Import PosixPath.

(** A name as a directory listing gives it: not empty, without a slash,
    and neither [.] nor [..]. *)
Definition valid_name (n : string) : bool :=
  Str.nonempty n && negb (Str.mem sep n)
  && negb (String.eqb n ".") && negb (String.eqb n "..").

(** The absolute, normalised path with the components [l]. *)
Definition abs_of (l : list string) : string := "/" ++ Str.join "/" l.

Lemma valid_name_inv n :
  valid_name n = true ->
  Str.nonempty n = true /\ Str.mem sep n = false
  /\ String.eqb n "." = false /\ String.eqb n ".." = false.
Proof.
  unfold valid_name. intro H.
  repeat (apply andb_true_iff in H as [H ?]).
  repeat split; try assumption; now apply negb_true_iff.
Qed.

Lemma join_cons (x : string) (rest : list string) :
  rest <> [] -> Str.join "/" (x :: rest) = x ++ String sep (Str.join "/" rest).
Proof. destruct rest; [congruence | reflexivity]. Qed.

Lemma join_snoc (l : list string) (b : string) :
  l <> [] -> Str.join "/" (l ++ [b]) = Str.join "/" l ++ String sep b.
Proof.
  induction l as [|x l IH]; [congruence|]. intros _.
  destruct l as [|y l].
  - reflexivity.
  - change ((x :: y :: l) ++ [b])%list with (x :: ((y :: l) ++ [b]))%list.
    rewrite join_cons by (simpl; congruence).
    rewrite IH by congruence.
    rewrite (join_cons x (y :: l)) by congruence.
    cbn [append]. now rewrite StrFacts.append_assoc.
Qed.

Lemma split_no_sep (s : string) :
  Str.mem sep s = false -> Str.split sep s = [s].
Proof.
  induction s as [|c s IH]; [reflexivity|].
  cbn [Str.mem Str.split]. rewrite (Ascii.eqb_sym sep c).
  destruct (Ascii.eqb c sep); [discriminate|]. simpl orb.
  intro H. now rewrite (IH H).
Qed.

Lemma split_app (a b : string) :
  Str.mem sep a = false ->
  Str.split sep (a ++ String sep b) = a :: Str.split sep b.
Proof.
  induction a as [|c a IH].
  - intros _. cbn [append Str.split]. now rewrite Ascii.eqb_refl.
  - cbn [Str.mem append Str.split]. rewrite (Ascii.eqb_sym sep c).
    destruct (Ascii.eqb c sep); [discriminate|]. simpl orb.
    intro H. now rewrite (IH H).
Qed.

Lemma split_join (l : list string) :
  Forall (fun n => Str.mem sep n = false) l -> l <> [] ->
  Str.split sep (Str.join "/" l) = l.
Proof.
  induction 1 as [|x l Hx Hl IH]; [congruence|]. intros _.
  destruct l as [|y l].
  - now apply split_no_sep.
  - rewrite join_cons by congruence.
    rewrite split_app by assumption.
    now rewrite IH by congruence.
Qed.

Lemma endswith_app (c : ascii) (s t : string) :
  t <> EmptyString -> Str.endswith c (s ++ t) = Str.endswith c t.
Proof.
  intro Ht. induction s as [|d s IH]; [reflexivity|].
  cbn [append]. destruct (s ++ t) eqn:E.
  - destruct s, t; simpl in E; congruence.
  - rewrite <- E in *. rewrite <- IH. rewrite E. reflexivity.
Qed.

Lemma endswith_no_sep (n : string) :
  Str.mem sep n = false -> Str.endswith sep n = false.
Proof.
  induction n as [|c n IH]; [reflexivity|].
  cbn [Str.mem]. rewrite (Ascii.eqb_sym sep c).
  destruct (Ascii.eqb c sep) eqn:E; [discriminate|]. simpl orb. intro H.
  destruct n; [exact E | exact (IH H)].
Qed.

Lemma startswith_sep_no_sep (n : string) :
  Str.mem sep n = false -> Str.startswith "/" n = false.
Proof.
  destruct n as [|c n]; [reflexivity|].
  cbn [Str.mem Str.startswith]. intro H. apply orb_false_iff in H as [H _].
  unfold sep in H. now rewrite H.
Qed.

Lemma join_nonempty (l : list string) :
  l <> [] -> Forall (fun n => Str.nonempty n = true) l ->
  Str.join "/" l <> EmptyString.
Proof.
  intros Hl H. destruct H as [|x l Hx H]; [congruence|].
  destruct x; [discriminate|]. destruct l; simpl; congruence.
Qed.

Lemma endswith_join (l : list string) :
  l <> [] -> Forall (fun n => valid_name n = true) l ->
  Str.endswith sep (Str.join "/" l) = false.
Proof.
  intros Hl H. induction H as [|x l Hx H IH]; [congruence|].
  apply valid_name_inv in Hx as (Hne & Hs & _).
  destruct l as [|y l].
  - now apply endswith_no_sep.
  - rewrite join_cons by congruence.
    change (String sep (Str.join "/" (y :: l)))
      with ("/" ++ Str.join "/" (y :: l)).
    rewrite <- StrFacts.append_assoc.
    rewrite endswith_app; [apply IH; congruence|].
    apply join_nonempty; [congruence|].
    eapply Forall_impl; [|exact H]. intros n Hn.
    now apply valid_name_inv in Hn.
Qed.

Definition valid_names (l : list string) : Prop :=
  Forall (fun n => valid_name n = true) l.

Lemma valid_names_no_sep l :
  valid_names l -> Forall (fun n => Str.mem sep n = false) l.
Proof.
  intro H. eapply Forall_impl; [|exact H].
  intros n Hn. now apply valid_name_inv in Hn.
Qed.

Lemma valid_names_nonempty l :
  valid_names l -> Forall (fun n => Str.nonempty n = true) l.
Proof.
  intro H. eapply Forall_impl; [|exact H].
  intros n Hn. now apply valid_name_inv in Hn.
Qed.

(** [os.path.join] of valid names puts one slash between them. *)
Lemma join2_names (l : list string) (b : string) :
  l <> [] -> valid_names l -> valid_name b = true ->
  join2 (Str.join "/" l) b = Str.join "/" (l ++ [b]).
Proof.
  intros Hl H Hb. unfold join2.
  apply valid_name_inv in Hb as (_ & Hs & _).
  rewrite (startswith_sep_no_sep _ Hs).
  rewrite (endswith_join _ Hl H).
  destruct (Str.join "/" l) eqn:E.
  - exfalso. revert E. apply join_nonempty; [assumption|].
    now apply valid_names_nonempty.
  - cbn [Str.nonempty negb orb]. rewrite <- E.
    now rewrite join_snoc.
Qed.

Lemma join_names (a : string) (p : list string) :
  valid_names (a :: p) ->
  join a p = Str.join "/" (a :: p).
Proof.
  unfold join. intro H.
  assert (G : forall l, l <> [] -> valid_names (l ++ p) ->
              fold_left join2 p (Str.join "/" l) = Str.join "/" (l ++ p)).
  { clear. induction p as [|b p IH]; intros l Hl H.
    - now rewrite app_nil_r.
    - cbn [fold_left].
      unfold valid_names in H. 
      pose proof (proj1 (Forall_app _ _ _) H) as [Hl' Hp].
      rewrite join2_names; [|assumption|exact Hl'|now inversion Hp].
      replace (l ++ b :: p)%list with ((l ++ [b]) ++ p)%list
        by now rewrite <- app_assoc.
      apply IH.
      + destruct l; discriminate.
      + now rewrite <- app_assoc. }
  apply (G [a]); [discriminate | exact H].
Qed.

(** The path of an entry: [os.path.join] from an absolute directory. *)
Lemma join2_abs (l : list string) (b : string) :
  valid_names l -> valid_name b = true ->
  join2 (abs_of l) b = abs_of (l ++ [b]).
Proof.
  intros H Hb. unfold join2.
  pose proof Hb as Hb'. apply valid_name_inv in Hb' as (_ & Hs & _).
  rewrite (startswith_sep_no_sep _ Hs).
  unfold abs_of. cbn [append Str.nonempty negb orb].
  destruct l as [|x l].
  - reflexivity.
  - change (String "/" (Str.join "/" (x :: l)))
      with ("/" ++ Str.join "/" (x :: l)).
    rewrite endswith_app.
    + rewrite endswith_join by (congruence || assumption).
      rewrite join_snoc by congruence.
      reflexivity.
    + apply join_nonempty; [congruence | now apply valid_names_nonempty].
Qed.

Lemma join_abs (base rel : list string) :
  valid_names base -> valid_names rel ->
  join (abs_of base) rel = abs_of (base ++ rel).
Proof.
  unfold join. revert base.
  induction rel as [|b rel IH]; intros base Hb Hr.
  - now rewrite app_nil_r.
  - cbn [fold_left]. inversion Hr; subst.
    rewrite join2_abs by assumption.
    replace (base ++ b :: rel)%list with ((base ++ [b]) ++ rel)%list
      by now rewrite <- app_assoc.
    apply IH; [|assumption].
    apply Forall_app. split; [assumption | now constructor].
Qed.

Lemma startswith_join (l : list string) :
  valid_names l -> Str.startswith "/" (Str.join "/" l) = false.
Proof.
  intro H. destruct H as [|x l Hx H]; [reflexivity|].
  apply valid_name_inv in Hx as (Hne & Hs & _).
  pose proof (startswith_sep_no_sep _ Hs) as Hp.
  destruct x as [|c x]; [discriminate|].
  destruct l; [exact Hp|].
  rewrite join_cons by congruence.
  exact Hp.
Qed.

Lemma norm_step_empty n acc : norm_step n acc "" = acc.
Proof. reflexivity. Qed.

Lemma norm_step_valid n acc comp :
  valid_name comp = true -> norm_step n acc comp = (acc ++ [comp])%list.
Proof.
  intro H. apply valid_name_inv in H as (Hne & _ & Hd & Hdd).
  unfold norm_step. rewrite Hd, Hdd.
  destruct comp; [discriminate | reflexivity].
Qed.

Lemma fold_norm_step n (l : list string) :
  valid_names l ->
  forall acc, fold_left (norm_step n) l acc = (acc ++ l)%list.
Proof.
  induction 1 as [|x l Hx Hl IH]; intro acc.
  - now rewrite app_nil_r.
  - cbn [fold_left]. rewrite norm_step_valid by assumption.
    rewrite IH. now rewrite <- app_assoc.
Qed.

Lemma initial_slashes_abs (l : list string) :
  valid_names l -> initial_slashes (abs_of l) = 1.
Proof.
  intro H. unfold initial_slashes, abs_of.
  change (Str.startswith "/" ("/" ++ Str.join "/" l)) with true.
  change (Str.startswith "//" ("/" ++ Str.join "/" l))
    with (Str.startswith "/" (Str.join "/" l)).
  now rewrite startswith_join.
Qed.

Lemma split_abs (l : list string) :
  Str.split sep (abs_of l) = EmptyString :: Str.split sep (Str.join "/" l).
Proof. reflexivity. Qed.

Lemma filter_nonempty_valid (l : list string) :
  valid_names l -> filter Str.nonempty l = l.
Proof.
  induction 1 as [|x l Hx Hl IH]; [reflexivity|].
  apply valid_name_inv in Hx as (Hne & _).
  cbn [filter]. now rewrite Hne, IH.
Qed.

(** A normalised absolute path is left alone by [normpath]. *)
Lemma normpath_abs (l : list string) :
  valid_names l -> normpath (abs_of l) = abs_of l.
Proof.
  intro H.
  change (normpath (abs_of l))
    with (let n := initial_slashes (abs_of l) in
          let comps := fold_left (norm_step n) (Str.split sep (abs_of l)) [] in
          let path' := Str.replicate n sep ++ Str.join "/" comps in
          match path' with EmptyString => "." | _ => path' end).
  cbv zeta. rewrite initial_slashes_abs by assumption.
  rewrite split_abs. cbn [fold_left]. rewrite norm_step_empty.
  destruct l as [|x l].
  - reflexivity.
  - rewrite split_join by (congruence || now apply valid_names_no_sep).
    rewrite fold_norm_step by assumption. reflexivity.
Qed.

Lemma components_abs (cwd : string) (l : list string) :
  valid_names l -> components cwd (abs_of l) = l.
Proof.
  intro H. unfold components, abspath.
  change (isabs (abs_of l)) with true. cbv iota.
  rewrite normpath_abs by assumption. rewrite split_abs.
  cbn [filter Str.nonempty].
  destruct l as [|x l]; [reflexivity|].
  rewrite split_join by (congruence || now apply valid_names_no_sep).
  now apply filter_nonempty_valid.
Qed.

Lemma commonprefix_len_app (base rel : list string) :
  commonprefix_len base (base ++ rel) = List.length base.
Proof.
  induction base as [|x base IH]; [reflexivity|].
  cbn [commonprefix_len app List.length].
  now rewrite String.eqb_refl, IH.
Qed.

(** The relative path of an entry below the traversal root. *)
Lemma relpath_below (cwd : string) (base rel : list string) :
  valid_names base -> valid_names rel ->
  relpath cwd (join (abs_of base) rel) (abs_of base)
  = match rel with [] => "." | _ => Str.join "/" rel end.
Proof.
  intros Hb Hr. unfold relpath.
  rewrite join_abs by assumption.
  rewrite !components_abs
    by (try assumption; apply Forall_app; split; assumption).
  rewrite commonprefix_len_app, Nat.sub_diag.
  cbn [repeat app].
  rewrite skipn_app, skipn_all, Nat.sub_diag. cbn [skipn app].
  destruct rel as [|a p]; [reflexivity|].
  now apply join_names.
Qed.

Lemma relpath_entry (cwd : string) (base rel : list string) :
  valid_names base -> valid_names rel -> rel <> [] ->
  relpath cwd (join (abs_of base) rel) (abs_of base) = Str.join "/" rel.
Proof.
  intros Hb Hr Hne. rewrite relpath_below by assumption.
  destruct rel; [congruence | reflexivity].
Qed.

Lemma parts_join (rel : list string) :
  rel <> [] -> valid_names rel -> parts (Str.join "/" rel) = rel.
Proof.
  intros Hne H. unfold parts, initial_slashes.
  rewrite startswith_join by assumption. cbn [app].
  rewrite split_join by (assumption || now apply valid_names_no_sep).
  clear Hne. induction H as [|x l Hx Hl IH]; [reflexivity|].
  apply valid_name_inv in Hx as (Hn & _ & Hd & _).
  cbn [filter]. now rewrite Hn, Hd, IH.
Qed.

Lemma basename_join (rel : list string) :
  rel <> [] -> valid_names rel ->
  basename (Str.join "/" rel) = last rel EmptyString.
Proof.
  intros Hne H. unfold basename.
  now rewrite split_join by (assumption || now apply valid_names_no_sep).
Qed.

Lemma partial_path_join (rel : list string) (i : nat) :
  valid_names rel -> i < List.length rel ->
  partial_path rel i = Str.join "/" (firstn (i + 1) rel).
Proof.
  intros H Hi. unfold partial_path.
  assert (Hv : valid_names (firstn (i + 1) rel)).
  { unfold valid_names. rewrite <- (firstn_skipn (i + 1) rel) in H.
    now apply Forall_app in H. }
  destruct (firstn (i + 1) rel) as [|a p] eqn:E.
  - reflexivity.
  - now apply join_names.
Qed.

End PathFacts.

(** ** Patterns that are plain names *)

Section NamedPatterns.

Import PathFacts.

Variable cwd : string.
(** The components of the traversal root, an absolute normalised path. *)
Variable base : list string.
Hypothesis base_valid : valid_names base.

(** An entry whose own name is the wildcard-free pattern is ignored:
    test (b) on the base name. *)
Lemma should_ignore_own_name (pre : list string) (p : string)
    (patterns : list string) :
  valid_names pre -> valid_name p = true -> Glob.wildcard_free p = true ->
  In p patterns ->
  should_ignore cwd (PosixPath.join (abs_of base) (pre ++ [p])) (abs_of base)
                patterns = true.
Proof.
  intros Hpre Hp Hw Hin.
  assert (Hv : valid_names (pre ++ [p])).
  { apply Forall_app. split; [assumption | now constructor]. }
  apply should_ignore_hits. exists p. split; [assumption|].
  right; left.
  assert (Hne : (pre ++ [p])%list <> []) by (destruct pre; discriminate).
  rewrite relpath_entry by assumption.
  rewrite basename_join by assumption.
  rewrite last_last.
  rewrite GlobFacts.fnmatch_wildcard_free by assumption.
  apply String.eqb_refl.
Qed.

(** An entry below a top-level directory whose name is the wildcard-free
    pattern is ignored: test (c) on the prefix of one component. *)
Lemma should_ignore_top_name (p : string) (rest : list string)
    (patterns : list string) :
  valid_name p = true -> Glob.wildcard_free p = true -> valid_names rest ->
  In p patterns ->
  let rel_path :=
    PosixPath.relpath cwd (PosixPath.join (abs_of base) (p :: rest))
                      (abs_of base) in
  Glob.fnmatch (partial_path (PosixPath.parts rel_path) 0) p = true
  /\ should_ignore cwd (PosixPath.join (abs_of base) (p :: rest))
                   (abs_of base) patterns = true.
Proof.
  intros Hp Hw Hrest Hin rel_path.
  assert (Hv : valid_names (p :: rest)) by now constructor.
  assert (Hrel : PosixPath.parts rel_path = p :: rest).
  { subst rel_path. rewrite relpath_entry by (assumption || discriminate).
    apply parts_join; [discriminate | assumption]. }
  assert (Hm : Glob.fnmatch (partial_path (PosixPath.parts rel_path) 0) p
               = true).
  { rewrite Hrel.
    rewrite GlobFacts.fnmatch_wildcard_free by assumption.
    apply String.eqb_refl. }
  split; [exact Hm|].
  apply should_ignore_hits. exists p. split; [assumption|].
  right; right. exists 0. fold rel_path. split; [|exact Hm].
  rewrite Hrel. simpl. lia.
Qed.

End NamedPatterns.

(** C5, as the code has it.  For a wildcard-free pattern that is a single
    name, every entry whose relative path starts with a directory of that
    name (the name is the first component) is ignored by [should_ignore]
    alone: the prefix of one component equals the pattern. *)
Theorem should_ignore_under_top_level_name (cwd : string)
    (base rest : list string) (p : string) (patterns : list string) :
  PathFacts.valid_names base -> PathFacts.valid_names rest ->
  PathFacts.valid_name p = true -> Glob.wildcard_free p = true ->
  In p patterns ->
  let directory := PathFacts.abs_of base in
  let path := PosixPath.join directory (p :: rest) in
  let rel_path := PosixPath.relpath cwd path directory in
  Glob.fnmatch (partial_path (PosixPath.parts rel_path) 0) p = true
  /\ should_ignore cwd path directory patterns = true.
Proof.
  intros Hb Hr Hp Hw Hin. now apply should_ignore_top_name.
Qed.

Lemma should_ignore_under_top_level_name_witness :
  should_ignore "/" "/r/node_modules/pkg/index.js" "/r" default_ignores = true.
Proof.
  apply (should_ignore_under_top_level_name "/" ["r"] ["pkg"; "index.js"]
           "node_modules" default_ignores).
  - repeat constructor.
  - repeat constructor.
  - reflexivity.
  - reflexivity.
  - simpl. auto.
Defined.

(** C5 as stated fails: [src/node_modules/lib.js] passes through a directory
    named [node_modules], yet no prefix of it, nor its base name, matches
    the pattern, and [should_ignore] answers false. *)
Lemma should_ignore_nested_name_counterexample :
  Glob.wildcard_free "node_modules" = true
  /\ PosixPath.parts (PosixPath.relpath "/" "/r/src/node_modules/lib.js" "/r")
     = ["src"; "node_modules"; "lib.js"]
  /\ should_ignore "/" "/r/src/node_modules/lib.js" "/r" ["node_modules"]
     = false.
Proof. repeat split. Qed.

(** ** Tree walker *)

(** Induction over a directory tree: the subdirectories come with the
    property. *)
Fixpoint dir_induction (P : dir -> Prop) (HU : P Unlistable)
    (HD : forall files dirs,
        Forall (fun entry => P (snd entry)) dirs -> P (Dir files dirs))
    (d : dir) : P d :=
  match d with
  | Unlistable => HU
  | Dir files dirs =>
      HD files dirs
         ((fix all (l : list (string * dir))
             : Forall (fun entry => P (snd entry)) l :=
             match l with
             | [] => Forall_nil _
             | entry :: l' =>
                 Forall_cons entry (dir_induction P HU HD (snd entry)) (all l')
             end) dirs)
  end.

Section WalkerFacts.

Variable cwd : string.
Variable directory : string.
Variable ignore_patterns : list string.
Variable output_resolved : string.

#[local] Abbreviation path := (path_of directory).
#[local] Abbreviation ignored rel :=
  (should_ignore cwd (path_of directory rel) directory ignore_patterns).
#[local] Abbreviation process :=
  (process_file cwd directory ignore_patterns output_resolved).
#[local] Abbreviation walk_from :=
  (walk cwd directory ignore_patterns output_resolved).

(** The text of a block: header line, line of [=], content, the newline
    that closes an unterminated content, empty line. *)
Definition contents_block (rel_path content : string) : string :=
  "File: " ++ rel_path ++ newline
  ++ Str.replicate (String.length rel_path + 6) "=" ++ newline
  ++ content
  ++ (if Str.endswith Text.LF content then EmptyString else newline)
  ++ newline.

Definition skipped_banner (rel_path e : string) : string :=
  "File: " ++ rel_path ++ " (Skipped: " ++ String.substring 0 100 e ++ ")"
  ++ newline ++ newline.

Lemma write_contents_written out rel_path content :
  written (write_contents out rel_path content)
  = written out ++ contents_block rel_path content.
Proof.
  unfold write_contents, contents_block.
  destruct (Str.endswith Text.LF content); cbn [negb written write];
    rewrite ?StrFacts.append_assoc; reflexivity.
Qed.

Lemma write_contents_events out rel_path content :
  events (write_contents out rel_path content) = events out.
Proof.
  unfold write_contents.
  destruct (Str.endswith Text.LF content); reflexivity.
Qed.

Lemma write_skipped_written out rel_path e :
  written (write_skipped out rel_path e)
  = written out ++ skipped_banner rel_path e.
Proof. reflexivity. Qed.

(** The relative path under which an entry is reported. *)
Definition rel_path_of (file_path : list string) : string :=
  PosixPath.relpath cwd (path file_path) directory.

(** What an event adds to the output. *)
Definition block_of (e : event) : string :=
  match e with
  | Listed _ => EmptyString
  | Included file_path content =>
      contents_block (rel_path_of file_path) content
  | Skipped file_path error =>
      skipped_banner (rel_path_of file_path) error
  end.

Fixpoint render (es : list event) : string :=
  match es with
  | [] => EmptyString
  | e :: es' => block_of e ++ render es'
  end.

Lemma render_app es1 es2 : render (es1 ++ es2) = render es1 ++ render es2.
Proof.
  induction es1 as [|e es1 IH]; [reflexivity|].
  cbn [app render]. now rewrite IH, StrFacts.append_assoc.
Qed.

(** The four ways through the body of the file loop. *)
Inductive file_fate : Type :=
| IsOutput | IsIgnored | IsBinary | IsRead (content : string)
| IsUnreadable (error : string).

Definition fate (root : list string) (f : file) : file_fate :=
  if String.eqb (file_resolved f) output_resolved then IsOutput
  else if ignored (root ++ [file_name f])%list then IsIgnored
  else if is_likely_binary (file_bytes f) sample_size then IsBinary
  else match file_text f with
       | Returned content => IsRead content
       | Raised e => IsUnreadable e
       end.

Lemma process_file_fate root out f :
  process root out f =
  match fate root f with
  | IsOutput | IsIgnored | IsBinary => out
  | IsRead content =>
      let file_path := (root ++ [file_name f])%list in
      {| written := written out
                    ++ contents_block (rel_path_of file_path) content;
         events := (events out ++ [Included file_path content])%list |}
  | IsUnreadable e =>
      let file_path := (root ++ [file_name f])%list in
      {| written := written out ++ skipped_banner (rel_path_of file_path) e;
         events := (events out ++ [Skipped file_path e])%list |}
  end.
Proof.
  unfold process_file, fate, rel_path_of.
  destruct (String.eqb _ _); [reflexivity|].
  destruct (should_ignore _ _ _ _); [reflexivity|].
  destruct (is_likely_binary _ _); [reflexivity|].
  destruct (file_text f) as [content|e]; cbv zeta; unfold record.
  - now rewrite write_contents_written, write_contents_events.
  - reflexivity.
Qed.

(** No directory on the way to [rel], [rel] itself included, is ignored. *)
Definition clear (rel : list string) : Prop :=
  forall d post, d <> [] -> rel = (d ++ post)%list -> ignored d = false.

Lemma clear_root : clear [].
Proof.
  intros d post Hd H. symmetry in H. apply app_eq_nil in H as [-> _].
  congruence.
Qed.

Lemma clear_snoc root name :
  clear root -> ignored (root ++ [name])%list = false ->
  clear (root ++ [name])%list.
Proof.
  intros Hroot Hname d post Hd H.
  destruct post as [|x post' _] using rev_ind.
  - rewrite app_nil_r in H. now subst d.
  - rewrite app_assoc in H. apply app_inj_tail in H as [H _].
    now apply (Hroot d post').
Qed.

Lemma clear_prefix d post : clear (d ++ post)%list -> d <> [] -> ignored d = false.
Proof. intros H Hd. now apply (H d post). Qed.

(** The loop over the subdirectories that are left, in terms of [walk]. *)
Lemma walk_dir files dirs root out :
  walk_from (Dir files dirs) root out
  = fold_left
      (fun out entry => walk_from (snd entry) (root ++ [fst entry])%list out)
      (filter (fun entry => negb (ignored (root ++ [fst entry])%list)) dirs)
      (fold_left (process root) files (record out (Listed root))).
Proof.
  cbn [walk].
  generalize (fold_left (process root) files (record out (Listed root))).
  induction dirs as [|[name sub] dirs IH]; intro acc; [reflexivity|].
  cbn [map filter fst snd].
  destruct (ignored (root ++ [name])%list); cbn [negb fold_left fst snd].
  - apply IH.
  - apply IH.
Qed.

Lemma walk_unlistable root out :
  walk_from Unlistable root out = record out (Listed root).
Proof. reflexivity. Qed.

(** A property [I] of the stream kept by every step of the walk is kept by
    the walk; the steps may rely on a property [R] of the directory at hand
    that passes from a directory to the subdirectories left by the filter. *)
Lemma walk_invariant (R : list string -> Prop) (I : stream -> Prop) :
  (forall root name,
      R root -> ignored (root ++ [name])%list = false ->
      R (root ++ [name])%list) ->
  (forall root out, R root -> I out -> I (record out (Listed root))) ->
  (forall root out f, R root -> I out -> I (process root out f)) ->
  forall d root out, R root -> I out -> I (walk_from d root out).
Proof.
  intros Hdown Hlist Hfile d.
  induction d as [|files dirs IH] using dir_induction; intros root out Hc HI.
  - rewrite walk_unlistable. now apply Hlist.
  - rewrite walk_dir.
    assert (HI' : I (fold_left (process root) files
                       (record out (Listed root)))).
    { generalize (Hlist root out Hc HI).
      generalize (record out (Listed root)).
      induction files as [|f files IHf]; intros acc Hacc; [exact Hacc|].
      cbn [fold_left]. apply IHf. now apply Hfile. }
    revert HI'.
    generalize (fold_left (process root) files (record out (Listed root))).
    induction IH as [|[name sub] dirs Hsub _ IHdirs]; intros acc Hacc.
    + exact Hacc.
    + cbn [filter fst snd].
      destruct (ignored (root ++ [name])%list) eqn:E; cbn [negb].
      * now apply IHdirs.
      * cbn [fold_left fst snd]. apply IHdirs.
        apply Hsub; [now apply Hdown | exact Hacc].
Qed.

(** The entry an event is about. *)
Definition subject (e : event) : list string :=
  match e with
  | Listed root => root
  | Included file_path _ => file_path
  | Skipped file_path _ => file_path
  end.

Lemma process_events root out f :
  events (process root out f) = events out
  \/ exists e, events (process root out f) = (events out ++ [e])%list
               /\ subject e = (root ++ [file_name f])%list
               /\ ignored (root ++ [file_name f])%list = false.
Proof.
  rewrite process_file_fate. unfold fate.
  destruct (String.eqb _ _); [now left|].
  destruct (ignored _) eqn:E; [now left|].
  destruct (is_likely_binary _ _); [now left|].
  destruct (file_text f) as [content|e]; right; eexists; cbn [events];
    (split; [reflexivity | split; reflexivity]).
Qed.

(** Every event of a walk is about an entry that no ignored directory
    leads to. *)
Lemma walk_events_clear d root out :
  clear root -> Forall (fun e => clear (subject e)) (events out) ->
  Forall (fun e => clear (subject e)) (events (walk_from d root out)).
Proof.
  apply (walk_invariant clear
           (fun out => Forall (fun e => clear (subject e)) (events out))).
  - intros r name. apply clear_snoc.
  - intros r o Hc Ho. cbn [record events].
    apply Forall_app. split; [exact Ho | now repeat constructor].
  - intros r o f Hc Ho.
    destruct (process_events r o f) as [->|(e & -> & Hs & Hi)]; [exact Ho|].
    apply Forall_app. split; [exact Ho|].
    constructor; [|constructor]. rewrite Hs. now apply clear_snoc.
Qed.

(** The text written is the rendering of the events. *)
Lemma walk_written w0 d root out :
  written out = w0 ++ render (events out) ->
  written (walk_from d root out)
  = w0 ++ render (events (walk_from d root out)).
Proof.
  apply (walk_invariant (fun _ => True)
           (fun out => written out = w0 ++ render (events out)));
    [trivial | | | trivial].
  - intros r o _ Ho. cbn [record events written].
    rewrite render_app. cbn [render block_of].
    now rewrite !StrFacts.append_nil_r.
  - intros r o f _ Ho. rewrite process_file_fate.
    destruct (fate r f); try exact Ho; cbv zeta; cbn [written events];
      rewrite render_app, Ho, StrFacts.append_assoc; cbn [render block_of];
      now rewrite StrFacts.append_nil_r.
Qed.


(** The file loop leaves out the files that resolve to the destination. *)
Lemma process_output_file root out f :
  String.eqb (file_resolved f) output_resolved = true ->
  process root out f = out.
Proof. intro H. unfold process_file. now rewrite H. Qed.

End WalkerFacts.

(** The tree without the files that resolve to the destination. *)
Fixpoint without_output (output_resolved : string) (d : dir) : dir :=
  match d with
  | Unlistable => Unlistable
  | Dir files dirs =>
      Dir (filter (fun f =>
                     negb (String.eqb (file_resolved f) output_resolved))
                  files)
          (map (fun entry =>
                  (fst entry, without_output output_resolved (snd entry)))
               dirs)
  end.

Lemma walk_without_output (cwd directory : string)
    (ignore_patterns : list string) (output_resolved : string) (d : dir) :
  forall root out,
    walk cwd directory ignore_patterns output_resolved
         (without_output output_resolved d) root out
    = walk cwd directory ignore_patterns output_resolved d root out.
Proof.
  induction d as [|files dirs IH] using dir_induction; intros root out.
  - reflexivity.
  - cbn [without_output]. rewrite !walk_dir.
    assert (Hf : forall acc,
               fold_left (process_file cwd directory ignore_patterns
                            output_resolved root)
                 (filter (fun f => negb (String.eqb (file_resolved f)
                                           output_resolved)) files) acc
               = fold_left (process_file cwd directory ignore_patterns
                              output_resolved root) files acc).
    { induction files as [|f files IHf]; intro acc; [reflexivity|].
      cbn [filter fold_left].
      destruct (String.eqb (file_resolved f) output_resolved) eqn:E;
        cbn [negb fold_left].
      - rewrite process_output_file by exact E. apply IHf.
      - apply IHf. }
    rewrite Hf.
    generalize (fold_left (process_file cwd directory ignore_patterns
                             output_resolved root) files
                  (record out (Listed root))).
    induction IH as [|[name sub] dirs Hsub _ IHdirs]; intro acc.
    + reflexivity.
    + cbn [map filter fst snd].
      destruct (should_ignore cwd (path_of directory (root ++ [name])%list)
                  directory ignore_patterns); cbn [negb fold_left fst snd].
      * apply IHdirs.
      * rewrite Hsub. apply IHdirs.
Qed.

Lemma length_substring_0 (m : nat) (s : string) :
  String.length (String.substring 0 m s) <= m.
Proof.
  revert s. induction m as [|m IH]; intros [|c s]; simpl; try lia.
  specialize (IH s). lia.
Qed.

Lemma substring_0_prefix (m : nat) (s : string) :
  exists rest, s = String.substring 0 m s ++ rest.
Proof.
  revert s. induction m as [|m IH]; intros [|c s]; simpl.
  - now exists EmptyString.
  - now exists (String c s).
  - now exists EmptyString.
  - destruct (IH s) as (rest & H). exists rest. now rewrite <- H.
Qed.

(** C4.  When a pattern of the list makes [should_ignore] answer true for a
    directory [d] below the root, the walk never lists [d] or anything below
    it, and writes no block for a file at any depth under [d]; the text
    written is exactly the rendering of the events of the walk. *)
Theorem ignored_directory_is_pruned (cwd directory : string)
    (ignore_patterns : list string) (output_resolved : string)
    (top : dir) (output_file : stream) (pattern : string)
    (d post : list string) :
  In pattern ignore_patterns ->
  d <> [] ->
  should_ignore cwd (path_of directory d) directory [pattern] = true ->
  events output_file = [] ->
  let result :=
    process_directory cwd directory ignore_patterns output_resolved
                      top output_file in
  written result
  = written output_file ++ render cwd directory (events result)
  /\ forall e, In e (events result) -> subject e <> (d ++ post)%list.
Proof.
  intros Hin Hd Hign Hev result. split.
  - subst result. unfold process_directory.
    apply (walk_written cwd directory ignore_patterns output_resolved
             (written output_file) top [] output_file).
    rewrite Hev. cbn [render]. now rewrite StrFacts.append_nil_r.
  - intros e He Heq.
    assert (Hall : Forall (fun e => clear cwd directory ignore_patterns
                                      (subject e)) (events result)).
    { subst result. unfold process_directory.
      apply walk_events_clear; [apply clear_root | rewrite Hev; constructor]. }
    rewrite Forall_forall in Hall. specialize (Hall e He).
    rewrite Heq in Hall. apply clear_prefix in Hall; [|exact Hd].
    assert (Ht : should_ignore cwd (path_of directory d) directory
                   ignore_patterns = true).
    { apply (should_ignore_incl cwd _ _ [pattern]); [|exact Hign].
      intros p [<-|[]]. exact Hin. }
    congruence.
Qed.

Lemma ignored_directory_is_pruned_witness :
  should_ignore "/" (path_of "/r" ["src"; "node_modules"]) "/r"
                ["node_modules"] = true
  /\ forall e,
       In e (events (process_directory "/" "/r" default_ignores
                       "/r/repository_contents.txt" demo_tree demo_start)) ->
       subject e <> ["src"; "node_modules"; "lib.js"].
Proof.
  split; [vm_compute; reflexivity|].
  apply (ignored_directory_is_pruned "/" "/r" default_ignores
           "/r/repository_contents.txt" demo_tree demo_start
           "node_modules" ["src"; "node_modules"] ["lib.js"]).
  - simpl. auto.
  - discriminate.
  - vm_compute. reflexivity.
  - reflexivity.
Defined.

(** C9.  A file that resolves to the destination is left out before any
    other check, whatever its name and content; the walk gives the same
    result as on the tree without such files; and the destination, opened
    for writing, keeps nothing of what it held. *)
Theorem destination_never_included (cwd directory : string)
    (ignore_patterns : list string) (output_resolved : string) :
  (forall root out name bytes text,
      process_file cwd directory ignore_patterns output_resolved root out
        {| file_name := name; file_resolved := output_resolved;
           file_bytes := bytes; file_text := text |} = out)
  /\ (forall top out,
         process_directory cwd directory ignore_patterns output_resolved
           (without_output output_resolved top) out
         = process_directory cwd directory ignore_patterns output_resolved
             top out)
  /\ (forall argv1 fs top resolve now previous,
         main cwd argv1 fs top resolve now previous
         = main cwd argv1 fs top resolve now None).
Proof.
  split; [|split].
  - intros. apply process_output_file. apply String.eqb_refl.
  - intros. unfold process_directory.
    exact (walk_without_output cwd directory ignore_patterns output_resolved
             top [] out).
  - intros. unfold main. now destruct previous.
Qed.

(** ** Ignore-pattern loader *)

(** The patterns of the override file, in the words of the spec: its lines,
    each trimmed of surrounding whitespace, the blank ones discarded, in
    file order. *)
Definition repoignore_patterns (content : string) : list string :=
  filter Str.nonempty
         (map Text.strip (Text.readlines (Text.universal_newlines content))).

Lemma map_filter_strip (lines : list string) :
  map Text.strip (filter (fun line => Str.nonempty (Text.strip line)) lines)
  = filter Str.nonempty (map Text.strip lines).
Proof.
  induction lines as [|l lines IH]; [reflexivity|].
  cbn [filter map]. destruct (Str.nonempty (Text.strip l)); cbn [map];
    now rewrite IH.
Qed.

Definition first_char (s : string) : option ascii :=
  match s with EmptyString => None | String c _ => Some c end.

Fixpoint last_char (s : string) : option ascii :=
  match s with
  | EmptyString => None
  | String c EmptyString => Some c
  | String _ rest => last_char rest
  end.

Lemma lstrip_first (s : string) (c : ascii) :
  first_char (Text.lstrip s) = Some c -> Text.is_space c = false.
Proof.
  induction s as [|d s IH]; [discriminate|].
  cbn [Text.lstrip]. destruct (Text.is_space d) eqn:E; [exact IH|].
  cbn [first_char]. congruence.
Qed.

Lemma rstrip_first (s : string) (c : ascii) :
  first_char (Text.rstrip s) = Some c -> first_char s = Some c.
Proof.
  destruct s as [|d s]; [discriminate|].
  cbn [Text.rstrip]. destruct (Text.rstrip s).
  - destruct (Text.is_space d); [discriminate | exact (fun H => H)].
  - exact (fun H => H).
Qed.

Lemma rstrip_last (s : string) (c : ascii) :
  last_char (Text.rstrip s) = Some c -> Text.is_space c = false.
Proof.
  induction s as [|d s IH]; [discriminate|].
  cbn [Text.rstrip]. destruct (Text.rstrip s) as [|x r].
  - destruct (Text.is_space d) eqn:E; [discriminate|].
    cbn [last_char]. congruence.
  - exact IH.
Qed.

(** A trimmed string neither starts nor ends with whitespace. *)
Lemma strip_ends (s : string) (c : ascii) :
  first_char (Text.strip s) = Some c \/ last_char (Text.strip s) = Some c ->
  Text.is_space c = false.
Proof.
  unfold Text.strip. intros [H|H].
  - apply rstrip_first in H. now apply lstrip_first in H.
  - now apply rstrip_last in H.
Qed.

Lemma repoignore_patterns_trimmed (content p : string) :
  In p (repoignore_patterns content) ->
  p <> EmptyString
  /\ forall c, first_char p = Some c \/ last_char p = Some c ->
               Text.is_space c = false.
Proof.
  unfold repoignore_patterns. intro H.
  apply filter_In in H as [H Hne]. apply in_map_iff in H as (line & <- & _).
  split.
  - destruct (Text.strip line); [discriminate | congruence].
  - apply strip_ends.
Qed.

(** C8.  [read_repoignore] returns the built-in list when there is no
    [.repoignore] directly under the root, and the built-in list followed by
    the trimmed, non-blank lines of that file, in file order, when there is
    one; in both cases it returns and does not raise. *)
Theorem read_repoignore_spec (fs : string -> text_file) (directory : string) :
  (fs (PosixPath.join directory [".repoignore"]) = Missing ->
   read_repoignore fs directory = Returned default_ignores)
  /\ (forall content,
         fs (PosixPath.join directory [".repoignore"]) = Readable content ->
         read_repoignore fs directory
         = Returned (default_ignores ++ repoignore_patterns content)%list).
Proof.
  unfold read_repoignore. split.
  - intros ->. reflexivity.
  - intros content ->. unfold repoignore_patterns.
    now rewrite map_filter_strip.
Qed.

Lemma read_repoignore_spec_witness :
  read_repoignore (fun _ => Missing) "/r" = Returned default_ignores
  /\ read_repoignore demo_fs "/r"
     = Returned (default_ignores ++ ["*.log"; "build"; "tmp?"])%list.
Proof.
  split.
  - apply (proj1 (read_repoignore_spec (fun _ => Missing) "/r")).
    reflexivity.
  - apply (proj2 (read_repoignore_spec demo_fs "/r") demo_repoignore).
    reflexivity.
Defined.

(** ** A whole run

    The demonstration project, with [.repoignore] present and a stale
    destination in place: the listing of the blocks written. *)
Example demo_run_events :
  match demo_run with
  | Returned out => events out
  | Raised _ => []
  end
  = [ Listed [];
      Included ["README"] "hello";
      Skipped ["latin1.txt"] "invalid start byte";
      Listed ["src"];
      Included ["src"; "main.py"] ("print(1)" ++ newline) ].
Proof. vm_compute. reflexivity. Qed.

Example demo_run_written :
  match demo_run with
  | Returned out => written out
  | Raised _ => EmptyString
  end
  = "Repository Contents" ++ newline
    ++ "==================" ++ newline
    ++ "Directory: /r" ++ newline
    ++ "Generated on: 2024-01-01 00:00:00" ++ newline ++ newline
    ++ "File: README" ++ newline
    ++ "============" ++ newline
    ++ "hello" ++ newline ++ newline
    ++ "File: latin1.txt (Skipped: invalid start byte)" ++ newline ++ newline
    ++ "File: src/main.py" ++ newline
    ++ "=================" ++ newline
    ++ "print(1)" ++ newline ++ newline.
Proof. vm_compute. reflexivity. Qed.

(** * More properties of the program *)

(** ** Binary detector *)

(** X1.  [is_likely_binary] looks at the first 8192 bytes only: a file and
    its first 8192 bytes get the same answer, whatever follows them. *)
Theorem is_likely_binary_only_sample (bytes : list byte) :
  is_likely_binary (Some bytes) sample_size
  = is_likely_binary (Some (firstn sample_size bytes)) sample_size.
Proof.
  unfold is_likely_binary.
  now rewrite firstn_firstn, Nat.min_id.
Qed.

Lemma has_null_in (sample : list byte) :
  In x00 sample -> has_null sample = true.
Proof.
  intro H. unfold has_null. apply existsb_exists.
  exists x00. split; [exact H | reflexivity].
Qed.

Lemma is_control_x00_free (sample : list byte) :
  forallb (fun c => negb (is_control c)) sample = true ->
  has_null sample = false /\ control_chars sample = 0%N.
Proof.
  intro H. rewrite forallb_forall in H. split.
  - unfold has_null. apply not_true_is_false. intro Hn.
    apply existsb_exists in Hn as (c & Hc & Heq).
    apply Byte.byte_dec_bl in Heq. subst c.
    specialize (H _ Hc). discriminate.
  - unfold control_chars.
    replace (filter is_control sample) with (@nil byte); [reflexivity|].
    symmetry. induction sample as [|c sample IH]; [reflexivity|].
    cbn [filter]. pose proof (H c (or_introl eq_refl)) as Hc.
    apply negb_true_iff in Hc. rewrite Hc.
    apply IH. intros d Hd. apply H. now right.
Qed.

(** X2.  A sample that is not empty and holds no control character other
    than tab, newline and carriage return (hence no null byte) is text. *)
Theorem plain_sample_is_text (b : byte) (bytes : list byte) :
  forallb (fun c => negb (is_control c))
          (firstn sample_size (b :: bytes)) = true ->
  is_likely_binary (Some (b :: bytes)) sample_size = false.
Proof.
  intro H. apply is_control_x00_free in H as [Hn Hc].
  rewrite is_likely_binary_nonempty. cbv zeta. rewrite Hn, Hc.
  cbn [orb]. apply N.ltb_ge. cbn. lia.
Qed.

Lemma plain_sample_is_text_witness :
  is_likely_binary (Some [x68; x69; x0a; x09; xc3; xa9]) sample_size = false.
Proof.
  apply (plain_sample_is_text x68 [x69; x0a; x09; xc3; xa9]).
  vm_compute. reflexivity.
Defined.


(** ** Patterns *)

Lemma translate_star_literal (suffix : string) :
  Glob.wildcard_free suffix = true ->
  Glob.translate (String "*" suffix)
  = Glob.TStar :: GlobFacts.literals suffix.
Proof.
  intro H. unfold Glob.translate. cbn [Glob.translate_from].
  change (Ascii.eqb "*" "*") with true. cbv iota.
  f_equal. now apply GlobFacts.translate_wildcard_free.
Qed.

(** [*suffix] is a test on the end of the name. *)
Lemma fnmatch_star_suffix (name suffix : string) :
  Glob.wildcard_free suffix = true ->
  Glob.fnmatch name (String "*" suffix) = true
  <-> exists u, name = u ++ suffix.
Proof.
  intro H. unfold Glob.fnmatch. rewrite translate_star_literal by exact H.
  split.
  - intro Hm. apply GlobFacts.star_sound in Hm as (u & v & -> & Hv).
    rewrite GlobFacts.match_literals in Hv. apply String.eqb_eq in Hv.
    subst v. now exists u.
  - intros (u & ->). apply GlobFacts.star_complete.
    rewrite GlobFacts.match_literals. apply String.eqb_refl.
Qed.

(** X3.  A pattern [*suffix] with a wildcard-free suffix (such as [*.log])
    matches exactly the names that end with the suffix, slashes included:
    [should_ignore] answers true for every entry whose path relative to the
    root ends with the suffix, at any depth. *)
Theorem suffix_pattern_ignores (cwd path base_dir : string)
    (patterns : list string) (suffix stem : string) :
  Glob.wildcard_free suffix = true ->
  In (String "*" suffix) patterns ->
  PosixPath.relpath cwd path base_dir = stem ++ suffix ->
  (forall name,
      Glob.fnmatch name (String "*" suffix) = true
      <-> exists u, name = u ++ suffix)
  /\ should_ignore cwd path base_dir patterns = true.
Proof.
  intros Hw Hin Hrel. split.
  - intro name. now apply fnmatch_star_suffix.
  - apply should_ignore_hits. exists (String "*" suffix).
    split; [exact Hin|]. left. rewrite Hrel.
    apply fnmatch_star_suffix; [exact Hw | now exists stem].
Qed.

Lemma suffix_pattern_ignores_witness :
  should_ignore "/" "/r/var/log/app.log" "/r" ["*.log"] = true.
Proof.
  apply (suffix_pattern_ignores "/" "/r/var/log/app.log" "/r" ["*.log"]
           ".log" "var/log/app").
  - reflexivity.
  - simpl. auto.
  - reflexivity.
Defined.

Lemma fnmatch_star (name : string) : Glob.fnmatch name "*" = true.
Proof.
  apply (fnmatch_star_suffix name EmptyString eq_refl).
  exists name. now rewrite StrFacts.append_nil_r.
Qed.

Lemma should_ignore_star (cwd path base_dir : string)
    (patterns : list string) :
  In "*" patterns -> should_ignore cwd path base_dir patterns = true.
Proof.
  intro H. apply should_ignore_hits. exists "*". split; [exact H|].
  left. apply fnmatch_star.
Qed.

(** X4.  For one wildcard-free pattern and an entry below an absolute,
    normalised root, [should_ignore] answers true exactly when the pattern
    is the entry's own name or the path of the entry or of one of its
    ancestors, relative to the root: a name that only occurs deeper in the
    path does not count. *)
Theorem wildcard_free_pattern_iff (cwd : string) (base rel : list string)
    (p : string) :
  PathFacts.valid_names base -> PathFacts.valid_names rel -> rel <> [] ->
  Glob.wildcard_free p = true ->
  should_ignore cwd (PosixPath.join (PathFacts.abs_of base) rel)
                (PathFacts.abs_of base) [p] = true
  <-> (p = last rel EmptyString
       \/ exists k, k < List.length rel
                    /\ p = Str.join "/" (firstn (k + 1) rel)).
Proof.
  intros Hb Hr Hne Hw.
  assert (Hlen : List.length rel - 1 + 1 = List.length rel)
    by (destruct rel; [congruence | simpl; lia]).
  rewrite should_ignore_hits.
  rewrite PathFacts.relpath_entry by assumption.
  split.
  - intros (q & [<-|[]] & H). unfold pattern_hits in H.
    rewrite PathFacts.basename_join, PathFacts.parts_join in H
      by assumption.
    destruct H as [H|[H|(i & Hi & H)]];
      rewrite GlobFacts.fnmatch_wildcard_free in H by exact Hw;
      apply String.eqb_eq in H.
    + right. exists (List.length rel - 1). split; [lia|].
      now rewrite Hlen, firstn_all.
    + now left.
    + rewrite PathFacts.partial_path_join in H by assumption.
      right. exists i. split; [exact Hi | now symmetry].
  - intros H. exists p. split; [now left|]. unfold pattern_hits.
    rewrite PathFacts.basename_join, PathFacts.parts_join by assumption.
    destruct H as [->|(k & Hk & ->)].
    + right; left.
      rewrite GlobFacts.fnmatch_wildcard_free by exact Hw.
      apply String.eqb_refl.
    + right; right. exists k. split; [exact Hk|].
      rewrite GlobFacts.fnmatch_wildcard_free by exact Hw.
      rewrite PathFacts.partial_path_join by assumption.
      apply String.eqb_refl.
Qed.

Lemma wildcard_free_pattern_iff_witness :
  should_ignore "/" "/r/bootstrap/cache/routes.php" "/r" ["bootstrap/cache"]
  = true.
Proof.
  apply (wildcard_free_pattern_iff "/" ["r"]
           ["bootstrap"; "cache"; "routes.php"] "bootstrap/cache").
  - repeat constructor.
  - repeat constructor.
  - discriminate.
  - reflexivity.
  - right. exists 1. split; [simpl; lia | reflexivity].
Defined.

(** ** Tree walker *)

Section WalkerMore.

Variable cwd : string.
Variable directory : string.
Variable ignore_patterns : list string.
Variable output_resolved : string.

#[local] Abbreviation ignored rel :=
  (should_ignore cwd (path_of directory rel) directory ignore_patterns).
#[local] Abbreviation process :=
  (process_file cwd directory ignore_patterns output_resolved).
#[local] Abbreviation walk_from :=
  (walk cwd directory ignore_patterns output_resolved).
#[local] Abbreviation fate_of :=
  (fate cwd directory ignore_patterns output_resolved).

(** [b] written after [a]. *)
Definition after (a b : stream) : stream :=
  {| written := written a ++ written b;
     events := (events a ++ events b)%list |}.

Definition nothing : stream :=
  {| written := EmptyString; events := [] |}.

Lemma after_nothing out : after out nothing = out.
Proof.
  destruct out as [w es]. unfold after, nothing. cbn [written events].
  now rewrite StrFacts.append_nil_r, app_nil_r.
Qed.

Lemma record_after a b e : record (after a b) e = after a (record b e).
Proof.
  unfold record, after. cbn [written events]. now rewrite app_assoc.
Qed.

Lemma process_after a b root f :
  process root (after a b) f = after a (process root b f).
Proof.
  rewrite !process_file_fate.
  destruct (fate_of root f); try reflexivity; cbv zeta;
    unfold after; cbn [written events];
    now rewrite StrFacts.append_assoc, app_assoc.
Qed.

Lemma process_files_after a root files :
  forall b,
    fold_left (process root) files (after a b)
    = after a (fold_left (process root) files b).
Proof.
  induction files as [|f files IH]; intro b; [reflexivity|].
  cbn [fold_left]. now rewrite process_after, IH.
Qed.

Lemma walk_after a d :
  forall root b, walk_from d root (after a b) = after a (walk_from d root b).
Proof.
  induction d as [|files dirs IH] using dir_induction; intros root b.
  - rewrite !walk_unlistable. apply record_after.
  - rewrite !walk_dir. rewrite record_after, process_files_after.
    generalize (fold_left (process root) files (record b (Listed root))).
    induction IH as [|[name sub] dirs Hsub _ IHdirs]; intro acc.
    + reflexivity.
    + cbn [filter fst snd].
      destruct (ignored (root ++ [name])%list); cbn [negb fold_left fst snd].
      * apply IHdirs.
      * rewrite Hsub. apply IHdirs.
Qed.

Lemma walk_from_nothing d root out :
  walk_from d root out = after out (walk_from d root nothing).
Proof. rewrite <- walk_after. now rewrite after_nothing. Qed.

Lemma binary_file_unchanged root out f :
  is_likely_binary (file_bytes f) sample_size = true ->
  process root out f = out.
Proof.
  intro H. rewrite process_file_fate. unfold fate. rewrite H.
  destruct (String.eqb _ _); [reflexivity|].
  destruct (should_ignore _ _ _ _); reflexivity.
Qed.



(** [file_at d rel f]: in the tree [d], the directory with components [rel]
    can be listed and holds the file [f]. *)
Inductive file_at : dir -> list string -> file -> Prop :=
| file_here files dirs f :
    In f files -> file_at (Dir files dirs) [] f
| file_below files dirs name sub rel f :
    In (name, sub) dirs -> file_at sub rel f ->
    file_at (Dir files dirs) (name :: rel) f.

End WalkerMore.

(** X5.  A file that cannot be read in binary mode, or that has a null byte
    among its first 8192 bytes, leaves the output as it was: no block and no
    banner, whatever the ignore patterns say and whatever reading it as text
    would give. *)
Theorem binary_looking_file_leaves_no_trace (cwd directory : string)
    (ignore_patterns : list string) (output_resolved : string)
    (root : list string) (out : stream) (f : file) :
  (file_bytes f = None
   \/ exists bytes, file_bytes f = Some bytes
                    /\ In x00 (firstn sample_size bytes)) ->
  process_file cwd directory ignore_patterns output_resolved root out f = out.
Proof.
  intro H. apply binary_file_unchanged.
  destruct H as [->|(bytes & -> & Hin)]; [reflexivity|].
  unfold is_likely_binary. now rewrite (has_null_in _ Hin).
Qed.

Lemma binary_looking_file_leaves_no_trace_witness :
  process_file "/" "/r" [] "/r/out" [] demo_start
    {| file_name := "logo.png"; file_resolved := "/r/logo.png";
       file_bytes := Some [x89; x50; x4e; x47; x00; x0d];
       file_text := Raised "invalid start byte" |}
  = demo_start.
Proof.
  apply binary_looking_file_leaves_no_trace.
  right. eexists. split; [reflexivity|]. vm_compute. auto 10.
Defined.

(** X6.  The walk only appends: what the output held before the walk stays
    in front, untouched, and what the walk adds does not depend on it. *)
Theorem walk_only_appends (cwd directory : string)
    (ignore_patterns : list string) (output_resolved : string)
    (top : dir) (output_file : stream) :
  process_directory cwd directory ignore_patterns output_resolved
                    top output_file
  = after output_file
          (process_directory cwd directory ignore_patterns output_resolved
                             top nothing).
Proof.
  unfold process_directory. apply walk_from_nothing.
Qed.

(** X7.  With the pattern [*] in the list everything is ignored: the walk
    lists the root and writes nothing. *)
Theorem star_pattern_empties_output (cwd directory : string)
    (ignore_patterns : list string) (output_resolved : string)
    (top : dir) (output_file : stream) :
  In "*" ignore_patterns ->
  process_directory cwd directory ignore_patterns output_resolved
                    top output_file
  = record output_file (Listed []).
Proof.
  intro Hstar. unfold process_directory.
  destruct top as [|files dirs]; [reflexivity|].
  rewrite walk_dir.
  assert (Hd : filter (fun entry : string * dir =>
                         negb (should_ignore cwd
                                 (path_of directory ([] ++ [fst entry])%list)
                                 directory ignore_patterns)) dirs = []).
  { induction dirs as [|entry dirs IH]; [reflexivity|].
    cbn [filter]. now rewrite should_ignore_star. }
  rewrite Hd. cbn [fold_left].
  generalize (record output_file (Listed [])).
  induction files as [|f files IH]; intro acc; [reflexivity|].
  cbn [fold_left]. rewrite <- (IH acc) at 2. f_equal.
  rewrite process_file_fate. unfold fate.
  rewrite should_ignore_star by exact Hstar.
  destruct (String.eqb _ _); reflexivity.
Qed.

Lemma star_pattern_empties_output_witness :
  written (process_directory "/" "/r" (default_ignores ++ ["*"])%list
             "/r/repository_contents.txt" demo_tree demo_start)
  = EmptyString.
Proof.
  rewrite (star_pattern_empties_output "/" "/r" (default_ignores ++ ["*"])%list
             "/r/repository_contents.txt" demo_tree demo_start).
  - reflexivity.
  - apply in_or_app. right. now left.
Defined.

(** X8.  With an absolute, normalised root, a directory whose own name is a
    wildcard-free pattern of the list is never listed, wherever it lies in
    the tree, and no file below it gets a block or a banner. *)
Theorem named_directory_pruned_at_any_depth (cwd : string)
    (base : list string) (ignore_patterns : list string)
    (output_resolved : string) (top : dir) (output_file : stream)
    (p : string) (pre post : list string) (e : event) :
  PathFacts.valid_names base -> PathFacts.valid_names pre ->
  PathFacts.valid_name p = true -> Glob.wildcard_free p = true ->
  In p ignore_patterns ->
  events output_file = [] ->
  In e (events (process_directory cwd (PathFacts.abs_of base) ignore_patterns
                  output_resolved top output_file)) ->
  subject e <> (pre ++ p :: post)%list.
Proof.
  intros Hb Hpre Hp Hw Hin Hev He Heq.
  assert (Hall : Forall (fun e => clear cwd (PathFacts.abs_of base)
                                    ignore_patterns (subject e))
                   (events (process_directory cwd (PathFacts.abs_of base)
                              ignore_patterns output_resolved top
                              output_file))).
  { unfold process_directory.
    apply walk_events_clear; [apply clear_root | rewrite Hev; constructor]. }
  rewrite Forall_forall in Hall. specialize (Hall e He).
  rewrite Heq in Hall.
  replace (pre ++ p :: post)%list with ((pre ++ [p]) ++ post)%list in Hall
    by now rewrite <- app_assoc.
  apply clear_prefix in Hall; [|destruct pre; discriminate].
  unfold path_of in Hall.
  rewrite (should_ignore_own_name cwd base Hb pre p ignore_patterns)
    in Hall by assumption.
  discriminate.
Qed.

Lemma named_directory_pruned_at_any_depth_witness :
  In (Listed ["src"])
     (events (process_directory "/" "/r" default_ignores
                "/r/repository_contents.txt" demo_tree demo_start))
  /\ Listed ["src"; "node_modules"] <> Listed ["src"]
  /\ ~ In (Listed ["src"; "node_modules"])
          (events (process_directory "/" "/r" default_ignores
                     "/r/repository_contents.txt" demo_tree demo_start)).
Proof.
  split; [vm_compute; auto 10|]. split; [discriminate|].
  intro H.
  apply (named_directory_pruned_at_any_depth "/" ["r"] default_ignores
           "/r/repository_contents.txt" demo_tree demo_start
           "node_modules" ["src"] [] (Listed ["src"; "node_modules"])).
  - repeat constructor.
  - repeat constructor.
  - reflexivity.
  - reflexivity.
  - left. reflexivity.
  - reflexivity.
  - exact H.
  - reflexivity.
Defined.

(** ** Loader and entry point *)

Lemma read_repoignore_returned (fs : string -> text_file)
    (directory : string) (patterns : list string) :
  read_repoignore fs directory = Returned patterns ->
  patterns = default_ignores
  \/ exists content,
       patterns = (default_ignores ++ repoignore_patterns content)%list.
Proof.
  unfold read_repoignore. destruct (fs _) as [| |content]; intro H.
  - left. congruence.
  - discriminate.
  - right. exists content. unfold repoignore_patterns.
    rewrite <- map_filter_strip. congruence.
Qed.

(** X10.  Whatever [.repoignore] holds, the list that [read_repoignore]
    returns starts with the built-in patterns, so every entry the built-ins
    ignore stays ignored. *)
Theorem loaded_patterns_keep_defaults (fs : string -> text_file)
    (directory : string) (patterns : list string) :
  read_repoignore fs directory = Returned patterns ->
  (exists custom, patterns = (default_ignores ++ custom)%list)
  /\ forall cwd path base_dir,
       should_ignore cwd path base_dir default_ignores = true ->
       should_ignore cwd path base_dir patterns = true.
Proof.
  intro H.
  assert (Hc : exists custom, patterns = (default_ignores ++ custom)%list).
  { destruct (read_repoignore_returned _ _ _ H) as [->|(content & ->)].
    - exists []. now rewrite app_nil_r.
    - eexists. reflexivity. }
  split; [exact Hc|].
  destruct Hc as (custom & ->). intros cwd path base_dir.
  apply should_ignore_incl. intros p Hp. apply in_or_app. now left.
Qed.

Lemma loaded_patterns_keep_defaults_witness :
  should_ignore "/" "/r/vendor/autoload.php" "/r"
                (default_ignores ++ ["*.log"; "build"; "tmp?"])%list = true.
Proof.
  apply (proj2 (loaded_patterns_keep_defaults demo_fs "/r"
                  (default_ignores ++ ["*.log"; "build"; "tmp?"])%list
                  eq_refl)).
  vm_compute. reflexivity.
Defined.

(** A pattern with something in it and no whitespace at either end. *)
Definition trimmed (p : string) : bool :=
  Str.nonempty p
  && match first_char p with Some c => negb (Text.is_space c) | None => true end
  && match last_char p with Some c => negb (Text.is_space c) | None => true end.

(** X11.  No pattern returned by [read_repoignore] is empty or starts or
    ends with whitespace. *)
Theorem loaded_patterns_are_trimmed (fs : string -> text_file)
    (directory : string) (patterns : list string) :
  read_repoignore fs directory = Returned patterns ->
  forallb trimmed patterns = true.
Proof.
  intro H.
  assert (Hd : forallb trimmed default_ignores = true)
    by (vm_compute; reflexivity).
  destruct (read_repoignore_returned _ _ _ H) as [->|(content & ->)];
    [exact Hd|].
  rewrite forallb_app, Hd. cbn [andb].
  apply forallb_forall. intros p Hp.
  destruct (repoignore_patterns_trimmed content p Hp) as [Hne Hends].
  unfold trimmed.
  destruct p as [|c p]; [congruence|]. cbn [Str.nonempty andb].
  apply andb_true_iff. split.
  - cbn [first_char]. rewrite (Hends c); [reflexivity | now left].
  - destruct (last_char (String c p)) as [d|] eqn:E; [|reflexivity].
    rewrite (Hends d); [reflexivity | now right].
Qed.

Lemma loaded_patterns_are_trimmed_witness :
  forallb trimmed (default_ignores ++ ["*.log"; "build"; "tmp?"])%list = true.
Proof.
  apply (loaded_patterns_are_trimmed demo_fs "/r"). reflexivity.
Defined.

(** X12.  Two runs on the same directory differ in the time line only:
    what comes before [Generated on:] and what comes after the empty line
    that follows it are the same, whatever the destination held before. *)
Theorem main_output_modulo_timestamp (cwd argv1 : string)
    (fs : string -> text_file) (top : dir) (resolve : string -> string)
    (now1 now2 : string) (previous1 previous2 : option string)
    (out1 out2 : stream) :
  main cwd argv1 fs top resolve now1 previous1 = Returned out1 ->
  main cwd argv1 fs top resolve now2 previous2 = Returned out2 ->
  exists head body,
    written out1
    = head ++ "Generated on: " ++ now1 ++ newline ++ newline ++ body
    /\ written out2
       = head ++ "Generated on: " ++ now2 ++ newline ++ newline ++ body
    /\ events out1 = events out2.
Proof.
  unfold main. destruct (read_repoignore fs _) as [patterns|]; [|discriminate].
  intros H1 H2. injection H1 as <-. injection H2 as <-.
  unfold process_directory.
  set (directory := PosixPath.abspath cwd argv1).
  set (output := resolve (PosixPath.join directory [output_filename])).
  exists ("Repository Contents" ++ newline ++ "==================" ++ newline
          ++ "Directory: " ++ directory ++ newline).
  exists (written (walk cwd directory patterns output top [] nothing)).
  rewrite (walk_from_nothing cwd directory patterns output top []
             (write (write (write (write (open_output ModeW previous1) _) _) _)
                    _)).
  rewrite (walk_from_nothing cwd directory patterns output top []
             (write (write (write (write (open_output ModeW previous2) _) _) _)
                    _)).
  unfold after, write, open_output, newline. cbn [written events].
  repeat first [rewrite StrFacts.append_assoc | progress cbn [append]].
  split; [|split]; reflexivity.
Qed.

(** The demonstration run at the time [now]. *)
Definition demo_run_at (now : string) : stream :=
  match main "/" "/r" demo_fs demo_tree (fun p => p) now (Some "stale") with
  | Returned out => out
  | Raised _ => nothing
  end.

Lemma main_output_modulo_timestamp_witness :
  exists head body,
    written (demo_run_at "Monday")
    = head ++ "Generated on: " ++ "Monday" ++ newline ++ newline ++ body
    /\ written (demo_run_at "Tuesday")
       = head ++ "Generated on: " ++ "Tuesday" ++ newline ++ newline ++ body
    /\ events (demo_run_at "Monday") = events (demo_run_at "Tuesday").
Proof.
  apply (main_output_modulo_timestamp "/" "/r" demo_fs demo_tree
           (fun p => p) "Monday" "Tuesday" (Some "stale") (Some "stale")
           (demo_run_at "Monday") (demo_run_at "Tuesday")).
  - vm_compute. reflexivity.
  - vm_compute. reflexivity.
Defined.

(** X13.  Whatever [.repoignore] adds, an entry whose own name is one of
    the built-in patterns (those that are plain names, such as [.env] or
    [node_modules]) is ignored wherever it lies below an absolute,
    normalised root. *)
Theorem built_in_names_ignored_everywhere (fs : string -> text_file)
    (cwd : string) (base pre : list string) (p : string)
    (patterns : list string) :
  PathFacts.valid_names base -> PathFacts.valid_names pre ->
  read_repoignore fs (PathFacts.abs_of base) = Returned patterns ->
  In p default_ignores -> PathFacts.valid_name p = true ->
  should_ignore cwd (PosixPath.join (PathFacts.abs_of base) (pre ++ [p])%list)
                (PathFacts.abs_of base) patterns = true.
Proof.
  intros Hb Hpre Hread Hin Hp.
  assert (Hw : Glob.wildcard_free p = true).
  { assert (Hall : forallb Glob.wildcard_free default_ignores = true)
      by (vm_compute; reflexivity).
    rewrite forallb_forall in Hall. now apply Hall. }
  apply (should_ignore_own_name cwd base Hb pre p patterns Hpre Hp Hw).
  destruct (read_repoignore_returned _ _ _ Hread) as [->|(content & ->)];
    [exact Hin | apply in_or_app; now left].
Qed.

Lemma built_in_names_ignored_everywhere_witness :
  should_ignore "/" "/r/services/api/.env" "/r"
                (default_ignores ++ ["*.log"; "build"; "tmp?"])%list = true.
Proof.
  apply (built_in_names_ignored_everywhere demo_fs "/" ["r"]
           ["services"; "api"] ".env"
           (default_ignores ++ ["*.log"; "build"; "tmp?"])%list).
  - repeat constructor.
  - repeat constructor.
  - reflexivity.
  - unfold default_ignores. repeat first [left; reflexivity | right].
  - reflexivity.
Defined.

(** * The run with the calls that end it *)

(** [b] goes on from [a]: it holds what [a] holds, and more. *)
Definition extends (a b : stream) : Prop :=
  exists text es,
    written b = written a ++ text /\ events b = (events a ++ es)%list.

Lemma extends_refl a : extends a a.
Proof.
  exists EmptyString, []. now rewrite StrFacts.append_nil_r, app_nil_r.
Qed.

Lemma extends_trans a b c : extends a b -> extends b c -> extends a c.
Proof.
  intros (t1 & e1 & Hw1 & He1) (t2 & e2 & Hw2 & He2).
  exists (t1 ++ t2), (e1 ++ e2)%list.
  now rewrite Hw2, Hw1, He2, He1, StrFacts.append_assoc, app_assoc.
Qed.

Lemma extends_record a e : extends a (record a e).
Proof.
  exists EmptyString, [e]. cbn [record written events].
  now rewrite StrFacts.append_nil_r.
Qed.

(** The output of a run, completed or not. *)
Definition output (p : progress) : stream :=
  match p with
  | Going out => out
  | Aborted out _ => out
  end.

Section FullFacts.

Variable pf : platform.
Variable cwd : string.
Variable directory : string.
Variable ignore_patterns : list string.
Variable output_resolved : string.

#[local] Abbreviation ignored rel :=
  (should_ignore cwd (path_of directory rel) directory ignore_patterns).
#[local] Abbreviation process :=
  (process_file cwd directory ignore_patterns output_resolved).
#[local] Abbreviation fate_of :=
  (fate cwd directory ignore_patterns output_resolved).
#[local] Abbreviation process_or_abort :=
  (Full.process_file pf cwd directory ignore_patterns output_resolved).
#[local] Abbreviation files_loop :=
  (Full.process_files pf cwd directory ignore_patterns output_resolved).
#[local] Abbreviation walk_or_abort :=
  (Full.walk pf cwd directory ignore_patterns output_resolved).
#[local] Abbreviation rel_path_at :=
  (rel_path_of cwd directory).

(** The texts of the writes of a block. *)
Definition block_encodable (rel_path content : string) : bool :=
  encodable pf ("File: " ++ rel_path ++ newline)
  && encodable pf (Str.replicate (String.length rel_path + 6) "=" ++ newline)
  && encodable pf content
  && encodable pf newline.

Lemma write_contents_encodable out rel_path content :
  block_encodable rel_path content = true ->
  Full.write_contents pf out rel_path content
  = Going {| written := written out ++ contents_block rel_path content;
             events := events out |}.
Proof.
  unfold block_encodable. rewrite !andb_true_iff.
  intros (((H1 & H2) & H3) & H4).
  unfold Full.write_contents, Full.write, contents_block.
  rewrite H1. cbn [and_then]. rewrite H2. cbn [and_then].
  rewrite H3. cbn [and_then].
  destruct (Str.endswith Text.LF content); cbn [negb and_then];
    rewrite ?H4; cbn [and_then]; rewrite ?H4;
    unfold write; cbn [written events];
    rewrite ?StrFacts.append_assoc; reflexivity.
Qed.

Lemma write_contents_going out rel_path content out' :
  Full.write_contents pf out rel_path content = Going out' ->
  block_encodable rel_path content = true.
Proof.
  unfold block_encodable, Full.write_contents, Full.write.
  destruct (encodable pf ("File: " ++ rel_path ++ newline));
    [|discriminate]. cbn [and_then].
  destruct (encodable pf (Str.replicate _ _ ++ newline)); [|discriminate].
  cbn [and_then].
  destruct (encodable pf content); [|discriminate]. cbn [and_then].
  destruct (encodable pf newline) eqn:E; [reflexivity|].
  destruct (Str.endswith Text.LF content); cbn [negb and_then];
    rewrite ?E; cbn [and_then]; rewrite ?E; discriminate.
Qed.

Lemma write_contents_header out rel_path content :
  encodable pf ("File: " ++ rel_path ++ newline) = false ->
  Full.write_contents pf out rel_path content
  = Aborted out (EncodeError ("File: " ++ rel_path ++ newline)).
Proof.
  intro H. unfold Full.write_contents, Full.write. now rewrite H.
Qed.

(** The body of the file loop, by the way taken through it. *)
Lemma full_process_file_fate root out f :
  process_or_abort root out f =
  match resolve_error pf (root ++ [file_name f])%list with
  | Some error => Aborted out (ResolveError error)
  | None =>
      let file_path := (root ++ [file_name f])%list in
      match fate_of root f with
      | IsOutput | IsIgnored | IsBinary => Going out
      | IsRead content =>
          and_then
            (Full.write_contents pf out (rel_path_at file_path) content)
            (fun out => Going (record out (Included file_path content)))
      | IsUnreadable e =>
          let banner := skipped_banner (rel_path_at file_path) e in
          if encodable pf banner
          then Going {| written := written out ++ banner;
                        events := (events out ++ [Skipped file_path e])%list |}
          else Aborted out (EncodeError banner)
      end
  end.
Proof.
  unfold Full.process_file, fate, rel_path_of.
  destruct (resolve_error pf _); [reflexivity|].
  destruct (String.eqb _ _); [reflexivity|].
  destruct (should_ignore _ _ _ _); [reflexivity|].
  destruct (is_likely_binary _ _); [reflexivity|].
  destruct (file_text f) as [content|e]; cbv zeta; [reflexivity|].
  unfold Full.write_skipped, Full.write, skipped_banner.
  destruct (encodable pf _); reflexivity.
Qed.

(** A step of the file loop that does not raise is the step of the walker
    without failures. *)
Lemma process_file_going root out f out' :
  process_or_abort root out f = Going out' ->
  resolve_error pf (root ++ [file_name f])%list = None
  /\ out' = process root out f.
Proof.
  rewrite full_process_file_fate, process_file_fate.
  destruct (resolve_error pf _); [discriminate|].
  intro H. split; [reflexivity|]. cbv zeta in *.
  destruct (fate_of root f) as [| | |content|e].
  - congruence.
  - congruence.
  - congruence.
  - destruct (Full.write_contents pf out _ content) as [o|o w] eqn:E;
      [|discriminate].
    pose proof (write_contents_going _ _ _ _ E) as Henc.
    rewrite write_contents_encodable in E by exact Henc.
    injection E as <-. cbn [and_then] in H. now injection H as <-.
  - destruct (encodable pf _); [congruence | discriminate].
Qed.

Lemma files_loop_aborted root files out why :
  files_loop root files (Aborted out why) = Aborted out why.
Proof.
  unfold Full.process_files.
  induction files as [|f files IH]; [reflexivity | exact IH].
Qed.

Lemma files_loop_cons root f files out :
  files_loop root (f :: files) (Going out)
  = files_loop root files (process_or_abort root out f).
Proof. reflexivity. Qed.

(** The loop over the subdirectories that are left, in terms of the walk. *)
Definition enter (root : list string) (p : progress) (entry : string * dir)
    : progress :=
  and_then p (fun out =>
    if is_link pf (root ++ [fst entry])%list then Going out
    else walk_or_abort (snd entry) (root ++ [fst entry])%list out).

Lemma full_walk_dir files dirs root out :
  walk_or_abort (Dir files dirs) root out
  = fold_left (enter root)
      (filter (fun entry => negb (ignored (root ++ [fst entry])%list)) dirs)
      (files_loop root files (Going (record out (Listed root)))).
Proof.
  cbn [Full.walk].
  generalize (files_loop root files (Going (record out (Listed root)))).
  induction dirs as [|[name sub] dirs IH]; intro acc; [reflexivity|].
  cbn [map filter fst snd].
  destruct (ignored (root ++ [name])%list); cbn [negb fold_left fst snd].
  - apply IH.
  - apply IH.
Qed.

Lemma enter_aborted root (l : list (string * dir)) out why :
  fold_left (enter root) l (Aborted out why) = Aborted out why.
Proof. induction l as [|entry l IH]; [reflexivity | exact IH]. Qed.

(** A property kept by every step of the walker without failures holds of
    the output of every run that completes. *)
Lemma walk_going_invariant (R : list string -> Prop) (I : stream -> Prop) :
  (forall root name,
      R root -> ignored (root ++ [name])%list = false ->
      R (root ++ [name])%list) ->
  (forall root out, R root -> I out -> I (record out (Listed root))) ->
  (forall root out f, R root -> I out -> I (process root out f)) ->
  forall d root out result,
    R root -> I out -> walk_or_abort d root out = Going result -> I result.
Proof.
  intros Hdown Hlist Hfile d.
  induction d as [|files dirs IH] using dir_induction;
    intros root out result Hc HI.
  - cbn [Full.walk]. intros [= <-]. now apply Hlist.
  - rewrite full_walk_dir.
    assert (Hfiles : forall acc r,
               I acc -> files_loop root files (Going acc) = Going r -> I r).
    { induction files as [|f files IHf]; intros acc r Hacc.
      - intros [= <-]. exact Hacc.
      - rewrite files_loop_cons.
        destruct (process_or_abort root acc f) as [o|o w] eqn:E.
        + apply process_file_going in E as [_ ->].
          apply IHf. now apply Hfile.
        + now rewrite files_loop_aborted. }
    destruct (files_loop root files (Going (record out (Listed root))))
      as [acc|acc w] eqn:E.
    2:{ now rewrite enter_aborted. }
    apply Hfiles in E; [|now apply Hlist]. clear Hfiles.
    revert acc E.
    induction IH as [|[name sub] dirs Hsub _ IHdirs]; intros acc Hacc.
    + intros [= <-]. exact Hacc.
    + cbn [filter fst snd].
      destruct (ignored (root ++ [name])%list) eqn:Ei; cbn [negb].
      * now apply IHdirs.
      * cbn [fold_left]. unfold enter at 2. cbn [and_then fst snd].
        destruct (is_link pf (root ++ [name])%list).
        -- now apply IHdirs.
        -- destruct (walk_or_abort sub (root ++ [name])%list acc)
             as [o|o w] eqn:Ew.
           ++ apply IHdirs. eapply Hsub; [|exact Hacc|exact Ew].
              now apply Hdown.
           ++ now rewrite enter_aborted.
Qed.

(** ** What a completed run holds *)

Lemma process_extends root out f : extends out (process root out f).
Proof.
  rewrite process_file_fate.
  destruct (fate_of root f); cbv zeta; try apply extends_refl;
    eexists; eexists; cbn [written events]; split; reflexivity.
Qed.

Lemma process_going_extends root out f out' :
  process_or_abort root out f = Going out' -> extends out out'.
Proof. intro H. apply process_file_going in H as [_ ->]. apply process_extends. Qed.

Lemma walk_going_extends d root out result :
  walk_or_abort d root out = Going result -> extends out result.
Proof.
  apply (walk_going_invariant (fun _ => True) (extends out));
    [trivial | | | trivial | apply extends_refl].
  - intros r o _ H. eapply extends_trans; [exact H | apply extends_record].
  - intros r o f _ H. eapply extends_trans; [exact H | apply process_extends].
Qed.

Lemma enter_going_extends root (l : list (string * dir)) :
  forall a r, fold_left (enter root) l (Going a) = Going r -> extends a r.
Proof.
  induction l as [|[name sub] l IH]; intros a r.
  - intros [= <-]. apply extends_refl.
  - cbn [fold_left]. unfold enter at 2. cbn [and_then fst snd].
    destruct (is_link pf (root ++ [name])%list); [apply IH|].
    destruct (walk_or_abort sub (root ++ [name])%list a) as [o|o w] eqn:E.
    + intro H. apply IH in H. apply walk_going_extends in E.
      eapply extends_trans; eassumption.
    + now rewrite enter_aborted.
Qed.

Lemma files_loop_going_extends root files :
  forall a r, files_loop root files (Going a) = Going r -> extends a r.
Proof.
  induction files as [|f files IH]; intros a r.
  - intros [= <-]. apply extends_refl.
  - rewrite files_loop_cons.
    destruct (process_or_abort root a f) as [o|o w] eqn:E.
    + intro H. apply IH in H. apply process_going_extends in E.
      eapply extends_trans; eassumption.
    + now rewrite files_loop_aborted.
Qed.

(** In a loop that completes, every file of the list had its turn. *)
Lemma files_loop_reaches root files f :
  In f files ->
  forall a r,
    files_loop root files (Going a) = Going r ->
    exists o o',
      extends a o /\ process_or_abort root o f = Going o' /\ extends o' r.
Proof.
  induction files as [|g files IH]; intros Hin a r; [destruct Hin|].
  rewrite files_loop_cons.
  destruct (process_or_abort root a g) as [o|o w] eqn:E.
  2:{ now rewrite files_loop_aborted. }
  intro H. destruct Hin as [->|Hin].
  - exists a, o. split; [apply extends_refl|]. split; [exact E|].
    now apply files_loop_going_extends in H.
  - destruct (IH Hin o r H) as (o1 & o2 & H1 & H2 & H3).
    exists o1, o2. split; [|now split].
    apply process_going_extends in E. eapply extends_trans; eassumption.
Qed.

(** No directory on the way to [rel], [rel] itself included, is ignored or
    is a symbolic link. *)
Definition open_way (root rel : list string) : Prop :=
  forall p post, p <> [] -> rel = (p ++ post)%list ->
    ignored (root ++ p)%list = false /\ is_link pf (root ++ p)%list = false.

Lemma open_way_below root name rel :
  open_way root (name :: rel) -> open_way (root ++ [name])%list rel.
Proof.
  intros H p post Hne ->. rewrite <- !app_assoc.
  apply (H (name :: p) post); [discriminate | reflexivity].
Qed.

(** In a run that completes, every file with an open way to it had its
    turn in the file loop. *)
Lemma walk_reaches d :
  forall root out rel f result,
    file_at d rel f -> open_way root rel ->
    walk_or_abort d root out = Going result ->
    exists o o',
      extends out o
      /\ process_or_abort (root ++ rel)%list o f = Going o'
      /\ extends o' result.
Proof.
  induction d as [|files dirs IH] using dir_induction;
    intros root out rel f result Hat Hway.
  - inversion Hat.
  - rewrite full_walk_dir.
    destruct (files_loop root files (Going (record out (Listed root))))
      as [acc|acc w] eqn:Ef.
    2:{ now rewrite enter_aborted. }
    intro Hd.
    inversion Hat as [? ? ? Hin|? ? name sub rel' ? Hin Hsub]; subst.
    + rewrite app_nil_r.
      destruct (files_loop_reaches _ _ _ Hin _ _ Ef) as (o & o' & H1 & H2 & H3).
      exists o, o'. split; [|split; [exact H2|]].
      * eapply extends_trans; [apply extends_record | exact H1].
      * apply enter_going_extends in Hd. eapply extends_trans; eassumption.
    + assert (Hacc : extends out acc).
      { apply files_loop_going_extends in Ef.
        eapply extends_trans; [apply extends_record | exact Ef]. }
      destruct (Hway [name] rel') as [Hign Hlink];
        [discriminate | reflexivity |].
      apply open_way_below in Hway.
      clear Ef Hat. revert acc Hacc Hd.
      rewrite Forall_forall in IH.
      induction dirs as [|[n s] dirs IHdirs]; [destruct Hin|].
      intros acc Hacc. cbn [filter fst snd].
      assert (IH' : forall x, In x dirs ->
                forall root out rel f result,
                  file_at (snd x) rel f -> open_way root rel ->
                  walk_or_abort (snd x) root out = Going result ->
                  exists o o',
                    extends out o
                    /\ process_or_abort (root ++ rel)%list o f = Going o'
                    /\ extends o' result)
        by (intros x Hx; apply IH; now right).
      destruct Hin as [Heq|Hin].
      * injection Heq as -> ->. rewrite Hign. cbn [negb fold_left].
        unfold enter at 2. cbn [and_then fst snd]. rewrite Hlink.
        destruct (walk_or_abort sub (root ++ [name])%list acc)
          as [r1|r1 w] eqn:Ew.
        2:{ now rewrite enter_aborted. }
        intro Hd.
        destruct (IH (name, sub) (or_introl eq_refl) _ _ _ _ _ Hsub Hway Ew)
          as (o & o' & H1 & H2 & H3).
        exists o, o'. rewrite <- app_assoc in H2.
        split; [|split; [exact H2|]].
        -- eapply extends_trans; eassumption.
        -- apply enter_going_extends in Hd. eapply extends_trans; eassumption.
      * destruct (ignored (root ++ [n])%list); cbn [negb].
        -- now apply IHdirs.
        -- cbn [fold_left]. unfold enter at 2. cbn [and_then fst snd].
           destruct (is_link pf (root ++ [n])%list).
           ++ now apply IHdirs.
           ++ destruct (walk_or_abort s (root ++ [n])%list acc)
                as [r1|r1 w] eqn:Ew.
              2:{ now rewrite enter_aborted. }
              apply IHdirs; [exact IH' | exact Hin |].
              apply walk_going_extends in Ew.
              eapply extends_trans; eassumption.
Qed.

End FullFacts.

(** ** The run on a platform without failures *)

(** The tree without the subdirectories that are symbolic links. *)
Fixpoint without_links (pf : platform) (root : list string) (d : dir) : dir :=
  match d with
  | Unlistable => Unlistable
  | Dir files dirs =>
      Dir files
          (filter (fun entry => negb (is_link pf (root ++ [fst entry])%list))
             (map (fun entry =>
                     (fst entry,
                      without_links pf (root ++ [fst entry])%list (snd entry)))
                  dirs))
  end.

Section Benign.

Variable pf : platform.
Variable cwd : string.
Variable directory : string.
Variable ignore_patterns : list string.
Variable output_resolved : string.

(** Every text can be encoded and every path resolved. *)
Hypothesis all_encodable : forall text, encodable pf text = true.
Hypothesis all_resolved : forall file_path, resolve_error pf file_path = None.

Lemma process_file_benign root out f :
  Full.process_file pf cwd directory ignore_patterns output_resolved root out f
  = Going (process_file cwd directory ignore_patterns output_resolved
             root out f).
Proof.
  rewrite full_process_file_fate, process_file_fate, all_resolved. cbv zeta.
  destruct (fate _ _ _ _ _ _); try reflexivity.
  - rewrite write_contents_encodable; [reflexivity|].
    unfold block_encodable. now rewrite !all_encodable.
  - now rewrite all_encodable.
Qed.

Lemma files_loop_benign root files :
  forall out,
    Full.process_files pf cwd directory ignore_patterns output_resolved
      root files (Going out)
    = Going (fold_left (process_file cwd directory ignore_patterns
                          output_resolved root) files out).
Proof.
  induction files as [|f files IH]; intro out; [reflexivity|].
  rewrite files_loop_cons, process_file_benign. apply IH.
Qed.

(** On such a platform the run completes, and does what the walker without
    failures does on the tree without the symbolic links. *)
Lemma walk_benign d :
  forall root out,
    Full.walk pf cwd directory ignore_patterns output_resolved d root out
    = Going (walk cwd directory ignore_patterns output_resolved
               (without_links pf root d) root out).
Proof.
  induction d as [|files dirs IH] using dir_induction; intros root out.
  - reflexivity.
  - cbn [without_links]. rewrite full_walk_dir, walk_dir, files_loop_benign.
    generalize (fold_left (process_file cwd directory ignore_patterns
                             output_resolved root) files
                  (record out (Listed root))).
    induction IH as [|[name sub] dirs Hsub _ IHdirs]; intro acc.
    + reflexivity.
    + cbn [map filter fst snd].
      destruct (is_link pf (root ++ [name])%list) eqn:El;
        destruct (should_ignore cwd (path_of directory (root ++ [name])%list)
                    directory ignore_patterns) eqn:Ei;
        cbn [negb filter fst snd]; rewrite ?Ei; cbn [negb fold_left].
      * apply IHdirs.
      * unfold enter at 2. cbn [and_then fst snd]. rewrite El. apply IHdirs.
      * apply IHdirs.
      * unfold enter at 2. cbn [and_then fst snd]. rewrite El, Hsub.
        apply IHdirs.
Qed.

End Benign.

(** C6.  A file in a listed directory that no ignored directory and no
    symbolic link leads to, that is not the destination, is not ignored and
    is not binary, and whose reading as UTF-8 text raises [e].
    The banner is the one line [File: <relative-path> (Skipped: <e[:100]>)]
    and a blank line, with at most 100 characters of [e].  When the banner
    can be encoded, the file loop writes it and goes on with the files that
    follow; every run that completes holds it; and on a platform where every
    text can be encoded and every path resolved the run completes, whatever
    files cannot be read.  When the banner cannot be encoded (the relative
    path holds a byte that is not UTF-8), the [UnicodeEncodeError] of the
    write leaves the loop with nothing written for this file nor for those
    that follow, and the run is aborted. *)
Theorem unreadable_file_banner_or_exit (pf : platform)
    (cwd directory : string) (ignore_patterns : list string)
    (output_resolved : string) (top : dir) (output_file : stream)
    (root : list string) (f : file) (e : string) :
  file_at top root f ->
  (forall p post, p <> [] -> root = (p ++ post)%list ->
     should_ignore cwd (path_of directory p) directory ignore_patterns = false
     /\ is_link pf p = false) ->
  resolve_error pf (root ++ [file_name f])%list = None ->
  String.eqb (file_resolved f) output_resolved = false ->
  should_ignore cwd (path_of directory (root ++ [file_name f])%list)
                directory ignore_patterns = false ->
  is_likely_binary (file_bytes f) sample_size = false ->
  file_text f = Raised e ->
  let rel_path :=
    PosixPath.relpath cwd (path_of directory (root ++ [file_name f])%list)
                      directory in
  let shown := String.substring 0 100 e in
  let banner :=
    "File: " ++ rel_path ++ " (Skipped: " ++ shown ++ ")"
    ++ newline ++ newline in
  let files_loop :=
    Full.process_files pf cwd directory ignore_patterns output_resolved root in
  let run :=
    Full.process_directory pf cwd directory ignore_patterns output_resolved
                           top output_file in
  (String.length shown <= 100 /\ exists cut, e = shown ++ cut)
  /\ (encodable pf banner = true ->
      forall out rest,
        files_loop (f :: rest) (Going out)
        = files_loop rest
            (Going {| written := written out ++ banner;
                      events := (events out
                                 ++ [Skipped (root ++ [file_name f]) e])%list |}))
  /\ (forall result,
        run = Going result ->
        In (Skipped (root ++ [file_name f])%list e) (events result)
        /\ exists before rest,
             written result = written output_file ++ before ++ banner ++ rest)
  /\ ((forall text, encodable pf text = true) ->
      (forall file_path, resolve_error pf file_path = None) ->
      exists result, run = Going result)
  /\ (encodable pf banner = false ->
      (forall out rest,
          files_loop (f :: rest) (Going out) = Aborted out (EncodeError banner))
      /\ exists out why, run = Aborted out why).
Proof.
  intros Hat Hway Hres Hout Hign Hbin Htext rel_path shown banner files_loop
         run.
  assert (Hstep : forall out,
             Full.process_file pf cwd directory ignore_patterns
               output_resolved root out f
             = if encodable pf banner
               then Going {| written := written out ++ banner;
                             events := (events out
                                        ++ [Skipped (root ++ [file_name f]) e])%list |}
               else Aborted out (EncodeError banner)).
  { intro out. rewrite full_process_file_fate. unfold fate.
    now rewrite Hres, Hout, Hign, Hbin, Htext. }
  assert (Hrun : forall result,
             run = Going result ->
             exists o o',
               extends output_file o
               /\ Full.process_file pf cwd directory ignore_patterns
                    output_resolved root o f = Going o'
               /\ extends o' result).
  { intros result H.
    exact (walk_reaches pf cwd directory ignore_patterns output_resolved
             top [] output_file root f result Hat Hway H). }
  split; [|split; [|split; [|split]]].
  - split; [apply length_substring_0 | apply substring_0_prefix].
  - intros Henc out rest. subst files_loop.
    now rewrite files_loop_cons, Hstep, Henc.
  - intros result H.
    destruct (Hrun result H) as (o & o' & (t1 & e1 & Hw1 & He1) & Hf
                                 & (t2 & e2 & Hw2 & He2)).
    rewrite Hstep in Hf. destruct (encodable pf banner); [|discriminate].
    injection Hf as <-. cbn [written events] in Hw2, He2. split.
    + rewrite He2. apply in_or_app. left. apply in_or_app. right. now left.
    + exists t1, t2. rewrite Hw2, Hw1. now rewrite !StrFacts.append_assoc.
  - intros Henc Hall. subst run. unfold Full.process_directory.
    rewrite walk_benign by assumption. now eexists.
  - intro Henc. split.
    + intros out rest. subst files_loop.
      rewrite files_loop_cons, Hstep, Henc. apply files_loop_aborted.
    + destruct run as [result|out why] eqn:E; [|now exists out, why].
      destruct (Hrun result eq_refl) as (o & o' & _ & Hf & _).
      rewrite Hstep, Henc in Hf. discriminate.
Qed.

(** C7.  A file in a listed directory that no ignored directory and no
    symbolic link leads to, that passes the three checks and is read as
    [content].  Its block is the header line, a line of [=] of the length
    of the relative path plus six, the content, a newline when the content
    does not end with one, and an empty line.  When the texts of the writes
    can be encoded, the file loop writes the block and goes on with the
    files that follow; every run that completes holds it; and on a platform
    where every text can be encoded and every path resolved the run
    completes.  When the header line cannot be encoded (the relative path
    holds a byte that is not UTF-8), the [UnicodeEncodeError] of the first
    write leaves the loop with nothing written for this file nor for those
    that follow, and the run is aborted. *)
Theorem read_file_block_or_exit (pf : platform) (cwd directory : string)
    (ignore_patterns : list string) (output_resolved : string) (top : dir)
    (output_file : stream) (root : list string) (f : file)
    (content : string) :
  file_at top root f ->
  (forall p post, p <> [] -> root = (p ++ post)%list ->
     should_ignore cwd (path_of directory p) directory ignore_patterns = false
     /\ is_link pf p = false) ->
  resolve_error pf (root ++ [file_name f])%list = None ->
  String.eqb (file_resolved f) output_resolved = false ->
  should_ignore cwd (path_of directory (root ++ [file_name f])%list)
                directory ignore_patterns = false ->
  is_likely_binary (file_bytes f) sample_size = false ->
  file_text f = Returned content ->
  let rel_path :=
    PosixPath.relpath cwd (path_of directory (root ++ [file_name f])%list)
                      directory in
  let header := "File: " ++ rel_path ++ newline in
  let separator := Str.replicate (String.length rel_path + 6) "=" in
  let block :=
    header ++ separator ++ newline ++ content
    ++ (if Str.endswith Text.LF content then EmptyString else newline)
    ++ newline in
  let files_loop :=
    Full.process_files pf cwd directory ignore_patterns output_resolved root in
  let run :=
    Full.process_directory pf cwd directory ignore_patterns output_resolved
                           top output_file in
  String.length separator = String.length rel_path + 6
  /\ (encodable pf header = true ->
      encodable pf (separator ++ newline) = true ->
      encodable pf content = true ->
      encodable pf newline = true ->
      forall out rest,
        files_loop (f :: rest) (Going out)
        = files_loop rest
            (Going {| written := written out ++ block;
                      events := (events out
                                 ++ [Included (root ++ [file_name f])
                                       content])%list |}))
  /\ (forall result,
        run = Going result ->
        In (Included (root ++ [file_name f])%list content) (events result)
        /\ exists before rest,
             written result = written output_file ++ before ++ block ++ rest)
  /\ ((forall text, encodable pf text = true) ->
      (forall file_path, resolve_error pf file_path = None) ->
      exists result, run = Going result)
  /\ (encodable pf header = false ->
      (forall out rest,
          files_loop (f :: rest) (Going out) = Aborted out (EncodeError header))
      /\ exists out why, run = Aborted out why).
Proof.
  intros Hat Hway Hres Hout Hign Hbin Htext rel_path header separator block
         files_loop run.
  assert (Hblock : block = contents_block rel_path content).
  { subst block header separator. unfold contents_block.
    now rewrite !StrFacts.append_assoc. }
  assert (Hstep : forall out,
             Full.process_file pf cwd directory ignore_patterns
               output_resolved root out f
             = and_then (Full.write_contents pf out rel_path content)
                 (fun out =>
                    Going (record out
                             (Included (root ++ [file_name f]) content)))).
  { intro out. rewrite full_process_file_fate. unfold fate.
    now rewrite Hres, Hout, Hign, Hbin, Htext. }
  assert (Hrun : forall result,
             run = Going result ->
             exists o o',
               extends output_file o
               /\ Full.process_file pf cwd directory ignore_patterns
                    output_resolved root o f = Going o'
               /\ extends o' result).
  { intros result H.
    exact (walk_reaches pf cwd directory ignore_patterns output_resolved
             top [] output_file root f result Hat Hway H). }
  split; [|split; [|split; [|split]]].
  - apply StrFacts.length_replicate.
  - intros H1 H2 H3 H4 out rest. subst files_loop.
    rewrite files_loop_cons, Hstep, write_contents_encodable.
    + now rewrite Hblock.
    + unfold block_encodable. fold rel_path. fold header. fold separator.
      now rewrite H1, H2, H3, H4.
  - intros result H.
    destruct (Hrun result H) as (o & o' & (t1 & e1 & Hw1 & He1) & Hf
                                 & (t2 & e2 & Hw2 & He2)).
    rewrite Hstep in Hf.
    destruct (Full.write_contents pf o rel_path content) as [o1|o1 w] eqn:E;
      [|discriminate].
    pose proof (write_contents_going _ _ _ _ _ E) as Henc.
    rewrite write_contents_encodable in E by exact Henc.
    injection E as <-. cbn [and_then] in Hf. injection Hf as <-.
    cbn [record written events] in Hw2, He2. split.
    + rewrite He2. apply in_or_app. left. apply in_or_app. right. now left.
    + exists t1, t2. rewrite Hw2, Hw1, Hblock.
      now rewrite !StrFacts.append_assoc.
  - intros Henc Hall. subst run. unfold Full.process_directory.
    rewrite walk_benign by assumption. now eexists.
  - intro Henc.
    assert (Hab : forall out,
               Full.process_file pf cwd directory ignore_patterns
                 output_resolved root out f
               = Aborted out (EncodeError header)).
    { intro out. rewrite Hstep, write_contents_header by exact Henc.
      reflexivity. }
    split.
    + intros out rest. subst files_loop.
      rewrite files_loop_cons, Hab. apply files_loop_aborted.
    + destruct run as [result|out why] eqn:E; [|now exists out, why].
      destruct (Hrun result eq_refl) as (o & o' & _ & Hf & _).
      rewrite Hab in Hf. discriminate.
Qed.

Lemma unreadable_file_banner_or_exit_witness :
  (exists out why,
      Full.process_directory demo_platform "/" "/r" default_ignores
        "/r/repository_contents.txt" demo_unreadable_tree demo_start
      = Aborted out why)
  /\ In (Skipped ["latin1.txt"] "invalid start byte")
        (events (output (Full.process_directory demo_platform "/" "/r"
                           default_ignores "/r/repository_contents.txt"
                           demo_tree demo_start))).
Proof.
  split.
  - destruct (unreadable_file_banner_or_exit demo_platform "/" "/r"
                default_ignores "/r/repository_contents.txt"
                demo_unreadable_tree demo_start [] demo_bad_unreadable
                demo_decode_error) as (_ & _ & _ & _ & H).
    + apply file_here. right. left. reflexivity.
    + intros p post Hne Heq. destruct p; [congruence | discriminate].
    + reflexivity.
    + vm_compute. reflexivity.
    + vm_compute. reflexivity.
    + vm_compute. reflexivity.
    + reflexivity.
    + apply H. vm_compute. reflexivity.
  - destruct (unreadable_file_banner_or_exit demo_platform "/" "/r"
                default_ignores "/r/repository_contents.txt"
                demo_tree demo_start [] demo_unreadable
                "invalid start byte") as (_ & _ & H & _).
    + apply file_here. right. left. reflexivity.
    + intros p post Hne Heq. destruct p; [congruence | discriminate].
    + reflexivity.
    + vm_compute. reflexivity.
    + vm_compute. reflexivity.
    + vm_compute. reflexivity.
    + reflexivity.
    + apply H. vm_compute. reflexivity.
Defined.

Lemma read_file_block_or_exit_witness :
  (exists out why,
      Full.process_directory demo_platform "/" "/r" default_ignores
        "/r/repository_contents.txt" demo_named_tree demo_start
      = Aborted out why)
  /\ In (Included ["README"] "hello")
        (events (output (Full.process_directory demo_platform "/" "/r"
                           default_ignores "/r/repository_contents.txt"
                           demo_tree demo_start))).
Proof.
  split.
  - destruct (read_file_block_or_exit demo_platform "/" "/r"
                default_ignores "/r/repository_contents.txt"
                demo_named_tree demo_start [] demo_bad_text
                ("hello" ++ newline)) as (_ & _ & _ & _ & H).
    + apply file_here. right. left. reflexivity.
    + intros p post Hne Heq. destruct p; [congruence | discriminate].
    + reflexivity.
    + vm_compute. reflexivity.
    + vm_compute. reflexivity.
    + vm_compute. reflexivity.
    + reflexivity.
    + apply H. vm_compute. reflexivity.
  - destruct (read_file_block_or_exit demo_platform "/" "/r"
                default_ignores "/r/repository_contents.txt"
                demo_tree demo_start [] demo_readme "hello")
      as (_ & _ & H & _ & _).
    + apply file_here. left. reflexivity.
    + intros p post Hne Heq. destruct p; [congruence | discriminate].
    + reflexivity.
    + vm_compute. reflexivity.
    + vm_compute. reflexivity.
    + vm_compute. reflexivity.
    + reflexivity.
    + apply H. vm_compute. reflexivity.
Defined.

(** The run on the directory with the unreadable file of the Latin-1 name:
    the block of [README] is written, the write of the banner raises, and
    [z.txt] is never reached. *)
Example demo_unreadable_run :
  Full.process_directory demo_platform "/" "/r" default_ignores
    "/r/repository_contents.txt" demo_unreadable_tree demo_start
  = Aborted
      {| written := "File: README" ++ newline ++ "============" ++ newline
                    ++ "hello" ++ newline ++ newline;
         events := [Listed []; Included ["README"] "hello"] |}
      (EncodeError ("File: " ++ demo_bad_name ++ " (Skipped: "
                    ++ demo_decode_error ++ ")" ++ newline ++ newline)).
Proof. vm_compute. reflexivity. Qed.

Example demo_named_run :
  Full.process_directory demo_platform "/" "/r" default_ignores
    "/r/repository_contents.txt" demo_named_tree demo_start
  = Aborted
      {| written := "File: README" ++ newline ++ "============" ++ newline
                    ++ "hello" ++ newline ++ newline;
         events := [Listed []; Included ["README"] "hello"] |}
      (EncodeError ("File: " ++ demo_bad_name ++ newline)).
Proof. vm_compute. reflexivity. Qed.

(** With names that can be encoded, the run is the one of the walker
    without failures. *)
Example demo_tree_run :
  Full.process_directory demo_platform "/" "/r" default_ignores
    "/r/repository_contents.txt" demo_tree demo_start
  = Going (process_directory "/" "/r" default_ignores
             "/r/repository_contents.txt" demo_tree demo_start).
Proof. vm_compute. reflexivity. Qed.

(** The symbolic link [vendor] is not entered. *)
Example demo_linked_run :
  events (output (Full.process_directory demo_platform "/" "/r"
                    default_ignores "/r/repository_contents.txt"
                    demo_linked_tree demo_start))
  = [ Listed []; Included ["README"] "hello"; Listed ["src"];
      Included ["src"; "main.py"] ("print(1)" ++ newline) ].
Proof. vm_compute. reflexivity. Qed.

(** Resolving [loop] raises before the inner [try]: the run is aborted. *)
Example demo_loop_run :
  Full.process_directory demo_platform "/" "/r" default_ignores
    "/r/repository_contents.txt"
    (Dir [ text_of "loop" "x"; demo_readme ] []) demo_start
  = Aborted {| written := EmptyString; events := [Listed []] |}
            (ResolveError "Symlink loop from '/r/loop'").
Proof. vm_compute. reflexivity. Qed.



(** ** Order of the output *)








Section Order.

Variable pf : platform.
Variable cwd : string.
Variable directory : string.
Variable ignore_patterns : list string.
Variable output_resolved : string.

#[local] Abbreviation ignored rel :=
  (should_ignore cwd (path_of directory rel) directory ignore_patterns).
#[local] Abbreviation process_or_abort :=
  (Full.process_file pf cwd directory ignore_patterns output_resolved).
#[local] Abbreviation files_loop :=
  (Full.process_files pf cwd directory ignore_patterns output_resolved).
#[local] Abbreviation walk_or_abort :=
  (Full.walk pf cwd directory ignore_patterns output_resolved).
#[local] Abbreviation enter_dir :=
  (enter pf cwd directory ignore_patterns output_resolved).










End Order.


